(** * Podcast search: transcript chunking, speaker labelling, index search
      and answer synthesis

    A shallow embedding of the core of the podcast RAG pipeline:

    - [src/audio_processor.py]: [chunk_transcript_by_time], [identify_speakers]
    - [src/text_indexer.py]: [search_similar_content] and its three strategies
    - [src/rag_engine.py]: [query_podcasts], [format_context], [_format_timestamp]
    - [src/utils.py]: [format_time], [validate_audio_file] and the
      episode store

    Conventions of the embedding.

    - Times are Python floats in the source.  A finite float is a
      rational, and a time is the rational value of the float ([Q]).
      Comparisons of floats are exact.  The pause computed by
      [identify_speakers] and the [//] and [%] of the timestamp
      formatters are rounded to binary64 as the source rounds them
      ([Float64]).  The duration test of the chunker is modelled on the
      exact span.  Rounding is monotone, so the bound on the chunk spans
      holds for the rounded test too; the other properties of the
      chunker hold whichever way the test falls, except the
      single-chunk property, which assumes the outcome for the rounded
      span as well.
    - Python [str] is modelled by [string], the bytes of its UTF-8
      encoding; case folding and white space are the ASCII ones, which
      are Python's on ASCII text ([PyStr.is_ascii]).  Properties that
      depend on case folding or on what counts as white space are stated
      for ASCII text.
    - A Python exception is a value [Raise msg] of the type [result]; a
      [try: ... except Exception: ...] block is [try_except].
    - The embedding store (ChromaDB collection) and the two generation
      backends are external: they are section variables. *)

From Stdlib Require Import QArith Qround Qabs Qreduction Qpower Lqa.
From stdpp Require Import gmap strings list pretty.


(** ** Python strings *)

Module PyStr.

(** [str.isspace] on ASCII: TAB, LF, VT, FF, CR, FS, GS, RS, US and space. *)
Definition is_space (c : Ascii.ascii) : bool :=
  let n := Ascii.nat_of_ascii c in
  (((9 <=? n) && (n <=? 13)) || ((28 <=? n) && (n <=? 32)))%nat.

Definition lower_char (c : Ascii.ascii) : Ascii.ascii :=
  let n := Ascii.nat_of_ascii c in
  if ((65 <=? n) && (n <=? 90))%nat then Ascii.ascii_of_nat (n + 32) else c.

(** [s.lower()] *)
Fixpoint lower (s : string) : string :=
  match s with
  | EmptyString => EmptyString
  | String c s' => String (lower_char c) (lower s')
  end.

(** [s.lstrip()] *)
Fixpoint lstrip (s : string) : string :=
  match s with
  | EmptyString => EmptyString
  | String c s' => if is_space c then lstrip s' else s
  end.

Fixpoint rev_onto (s acc : string) : string :=
  match s with
  | EmptyString => acc
  | String c s' => rev_onto s' (String c acc)
  end.

Definition rev (s : string) : string := rev_onto s EmptyString.

(** [s.strip()] *)
Definition strip (s : string) : string := rev (lstrip (rev (lstrip s))).

(** Truth value of a string: non-empty. *)
Definition truthy (s : string) : bool :=
  match s with EmptyString => false | String _ _ => true end.

(** [s.split()]: maximal runs of non-space characters.  [cur] holds the
    characters of the run being read, most recent first. *)
Fixpoint split_go (s : string) (cur : string) : list string :=
  match s with
  | EmptyString =>
      match cur with EmptyString => [] | _ => [rev cur] end
  | String c s' =>
      if is_space c then
        match cur with
        | EmptyString => split_go s' EmptyString
        | _ => rev cur :: split_go s' EmptyString
        end
      else split_go s' (String c cur)
  end.

Definition split (s : string) : list string := split_go s EmptyString.

(** [p] is a prefix of [s]. *)
Fixpoint prefixb (p s : string) : bool :=
  match p, s with
  | EmptyString, _ => true
  | String a p', String b s' => Ascii.eqb a b && prefixb p' s'
  | String _ _, EmptyString => false
  end.

(** [t in s] for strings: [t] occurs in [s] as a contiguous substring. *)
Fixpoint contains (s t : string) : bool :=
  prefixb t s ||
  match s with
  | EmptyString => false
  | String _ s' => contains s' t
  end.

(** [any(p(x) for x in l)] *)
Definition any {A} (p : A → bool) (l : list A) : bool := existsb p l.

(** The character is in the ASCII range. *)
Definition is_ascii_char (c : Ascii.ascii) : bool :=
  (Ascii.nat_of_ascii c <? 128)%nat.

(** [s.isascii()].  A [str] is held as the bytes of its UTF-8 encoding;
    on ASCII text [lower], [strip] and [split] above are exactly
    Python's. *)
Fixpoint is_ascii (s : string) : bool :=
  match s with
  | EmptyString => true
  | String c s' => is_ascii_char c && is_ascii s'
  end.

End PyStr.

(** ** Exceptions *)

Inductive result (A : Type) : Type :=
| Ok (a : A)
| Raise (msg : string).
Arguments Ok {A} a.
Arguments Raise {A} msg.

#[global] Instance result_ret : MRet result := fun A a => Ok a.

#[global] Instance result_bind : MBind result := fun A B k m =>
  match m with
  | Ok a => k a
  | Raise e => Raise e
  end.

(** [try: body except Exception as e: handler(e)] *)
Definition try_except {A} (body : result A) (handler : string → A) : A :=
  match body with
  | Ok a => a
  | Raise e => handler e
  end.

(** [l[i]] on a Python list: [IndexError] out of range. *)
Definition py_index {A} (l : list A) (i : nat) : result A :=
  match l !! i with
  | Some a => Ok a
  | None => Raise "list index out of range"
  end.

(** * Binary64 arithmetic

    A Python [float] is an IEEE 754 binary64 number.  A finite float is
    a rational, and a time of type [Q] below stands for the float of
    that value.  Where the source subtracts, adds or divides floats the
    result is the float nearest to the exact one, ties to even:
    [round64].  A result beyond the largest float is an infinity in the
    source; it is left finite here, with the same sign. *)

Module Float64.

(** [2 ^ e] *)
Definition pow2 (e : Z) : Q := Qpower 2 e.

(** The exponent of the leading bit of a non-zero [q]:
    [2^e <= |q| < 2^(e+1)]. *)
Definition exponent (q : Q) : Z :=
  let e := (Z.log2 (Z.abs (Qnum q)) - Z.log2 (Zpos (Qden q)))%Z in
  if Qle_bool (pow2 e) (Qabs q) then e else (e - 1)%Z.

(** The integer nearest to [x]; of two equally near, the even one. *)
Definition nearest_even (x : Q) : Z :=
  let f := Qfloor x in
  match (x - inject_Z f ?= 1 # 2)%Q with
  | Lt => f
  | Gt => (f + 1)%Z
  | Eq => if Z.even f then f else (f + 1)%Z
  end.

(** The float nearest to [q], in lowest terms.  Around [q] the floats
    are [2^(e-52)] apart, where [e] is the exponent of [q] and at least
    -1022 (below that are the subnormal numbers). *)
Definition round64 (q : Q) : Q :=
  let q := Qred q in
  if Qeq_bool q 0 then 0%Q
  else
    let ulp := pow2 (Z.max (exponent q) (-1022) - 52) in
    Qred (inject_Z (nearest_even (q / ulp)) * ulp).

(** [a + b], [a - b] and [a / b] on floats. *)
Definition add (a b : Q) : Q := round64 (a + b).
Definition sub (a b : Q) : Q := round64 (a - b).
Definition div (a b : Q) : Q := round64 (a / b).

End Float64.

(** * Audio processor *)

Module AudioProcessor.

(** A Whisper word entry. *)
Record Word := { word : string; word_start : Q; word_end : Q }.

(** A Whisper segment: [segment['start']], [segment['end']],
    [segment['text']], [segment.get('words', [])].  The times are the
    values of the floats. *)
Record Segment := {
  seg_start : Q;
  seg_end : Q;
  seg_text : string;
  seg_words : list Word
}.

(** [transcript.get("segments", [])] *)
Record Transcript := { segments : list Segment }.

(** The chunk dictionaries.  [start_time] and [end_time] are [None] in the
    initial accumulator.  A chunk is appended as a shallow copy and the
    accumulator is then rebound to a new dictionary, so the word list of
    an appended chunk is never extended afterwards: lists are values
    here. *)
Record Chunk := {
  text : string;
  start_time : option Q;
  end_time : option Q;
  words : list Word;
  speaker : string
}.

Definition initial_chunk : Chunk :=
  {| text := ""; start_time := None; end_time := None;
     words := []; speaker := "Unknown" |}.

(** [speakers.get(i, 'Unknown') if speakers else 'Unknown']: [None] and the
    empty dictionary are both falsy. *)
Definition speaker_of (speakers : option (gmap nat string)) (i : nat) : string :=
  match speakers with
  | None => "Unknown"
  | Some m => if decide (m = ∅) then "Unknown" else default "Unknown" (m !! i)
  end.

(** The accumulator after the unconditional part of the loop body (lines
    90-96): opened if empty, then extended with the segment. *)
Definition absorb (current_chunk : Chunk) (speaker0 : string) (segment : Segment) : Chunk :=
  let opened :=
    match start_time current_chunk with
    | None => (seg_start segment, speaker0)
    | Some s => (s, speaker current_chunk)
    end in
  {| text := text current_chunk +:+ " " +:+ seg_text segment;
     start_time := Some (fst opened);
     end_time := Some (seg_end segment);
     words := words current_chunk ++ seg_words segment;
     speaker := snd opened |}.

(** The accumulator both closing branches install (lines 101-108 and
    111-117). *)
Definition reopen (speaker0 : string) (segment : Segment) : Chunk :=
  {| text := seg_text segment;
     start_time := Some (seg_start segment);
     end_time := Some (seg_end segment);
     words := seg_words segment;
     speaker := speaker0 |}.

(** [current_chunk['end_time'] - current_chunk['start_time']].  It is
    evaluated after a segment has been absorbed, when both are set. *)
Definition span (c : Chunk) : Q :=
  (default 0 (end_time c) - default 0 (start_time c))%Q.

(** One iteration of the loop at lines 83-117. *)
Definition chunk_step (speakers : option (gmap nat string)) (chunk_duration : Q)
    (st : list Chunk * Chunk) (i : nat) (segment : Segment) : list Chunk * Chunk :=
  let '(chunks, current_chunk) := st in
  let speaker0 := speaker_of speakers i in
  let current_chunk := absorb current_chunk speaker0 segment in
  if negb (String.eqb speaker0 (speaker current_chunk))
     && PyStr.truthy (PyStr.strip (text current_chunk)) then
    (chunks ++ [current_chunk], reopen speaker0 segment)
  else if Qle_bool chunk_duration (span current_chunk) then
    (chunks ++ [current_chunk], reopen speaker0 segment)
  else (chunks, current_chunk).

(** [for i, segment in enumerate(segments)], started at index [i]. *)
Fixpoint chunk_loop (speakers : option (gmap nat string)) (chunk_duration : Q)
    (i : nat) (segs : list Segment) (st : list Chunk * Chunk) : list Chunk * Chunk :=
  match segs with
  | [] => st
  | segment :: rest =>
      chunk_loop speakers chunk_duration (S i) rest
        (chunk_step speakers chunk_duration st i segment)
  end.

(** Lines 119-122. *)
Definition finish (st : list Chunk * Chunk) : list Chunk :=
  let '(chunks, current_chunk) := st in
  if PyStr.truthy (PyStr.strip (text current_chunk))
  then chunks ++ [current_chunk] else chunks.

(** [chunk_transcript_by_time].  The segments are well-formed records, so
    no exception reaches the handler that returns the empty list. *)
Definition chunk_transcript_by_time (transcript : Transcript)
    (speakers : option (gmap nat string)) (chunk_duration : Q) : list Chunk :=
  finish (chunk_loop speakers chunk_duration 0 (segments transcript)
            ([], initial_chunk)).

(** [f"Speaker_{speaker_count}"] *)
Definition speaker_label (speaker_count : nat) : string :=
  "Speaker_" +:+ pretty speaker_count.

(** The loop of [identify_speakers] (lines 140-151), started at index [i].
    [segments[i-1]] and [speakers[i-1]] raise when absent. *)
Fixpoint identify_loop (all : list Segment) (i : nat) (segs : list Segment)
    (speakers : gmap nat string) (speaker_count : nat) : result (gmap nat string) :=
  match segs with
  | [] => Ok speakers
  | segment :: rest =>
      if (i =? 0)%nat then
        identify_loop all (S i) rest
          (<[i := speaker_label speaker_count]> speakers) speaker_count
      else
        prev ← py_index all (i - 1);
        let prev_end := seg_end prev in
        let curr_start := seg_start segment in
        let pause := Float64.sub curr_start prev_end in
        if negb (Qle_bool pause 2) then
          let speaker_count := S speaker_count in
          identify_loop all (S i) rest
            (<[i := speaker_label speaker_count]> speakers) speaker_count
        else
          match speakers !! (i - 1)%nat with
          | Some l => identify_loop all (S i) rest (<[i := l]> speakers) speaker_count
          | None => Raise "KeyError"
          end
  end.

(** [identify_speakers(audio_path, transcript)]; the audio path is unused. *)
Definition identify_speakers (transcript : Transcript) : gmap nat string :=
  try_except
    (match segments transcript with
     | [] => Ok ∅
     | _ => identify_loop (segments transcript) 0 (segments transcript) ∅ 0
     end)
    (fun _ => ∅).

End AudioProcessor.

Module Examples.
Import AudioProcessor.

Definition seg (a b : Q) (t : string) : Segment :=
  {| seg_start := a; seg_end := b; seg_text := t; seg_words := [] |}.

(** Two segments: the first ends at the float nearest to 0.1, the
    second starts at the float nearest to 2.1. *)
Definition boundary_segments : Transcript :=
  {| segments := [seg 0 (Float64.round64 (1 # 10)) "a";
                  seg (Float64.round64 (21 # 10)) 3 "b"] |}.

(** Segments at 0-10s, 10.5-15s and 18-25s. *)
Definition three_segments : Transcript :=
  {| segments := [seg 0 10 "hello"; seg (21 # 2) 15 "world"; seg 18 25 "ok"] |}.

End Examples.


(** * Text indexer *)

(** [l[:n]] on a Python list: a negative [n] counts from the end. *)
Definition py_slice_to {A} (n : Z) (l : list A) : list A :=
  if (0 <=? n)%Z then take (Z.to_nat n) l
  else take (length l - Z.to_nat (- n)) l.

Module TextIndexer.

(** The metadata dictionary built by [add_transcript_chunks]. *)
Record Metadata := {
  episode_id : string;
  episode_title : string;
  meta_start_time : Q;
  meta_end_time : Q;
  meta_speaker : string;
  chunk_index : nat
}.

(** The first (and only) query row of a ChromaDB result:
    [results['documents'][0]], [results['metadatas'][0]],
    [results['distances'][0]].  A stored entry may have no metadata. *)
Record QueryResult := {
  documents : list string;
  metadatas : list (option Metadata);
  distances : list Q
}.

(** [{"documents": [[]], "metadatas": [[]], "distances": [[]]}] *)
Definition empty_result : QueryResult :=
  {| documents := []; metadatas := []; distances := [] |}.

(** The three parallel [append]s. *)
Definition push (acc : QueryResult) (doc : string) (m : option Metadata) (d : Q)
    : QueryResult :=
  {| documents := documents acc ++ [doc];
     metadatas := metadatas acc ++ [m];
     distances := distances acc ++ [d] |}.

Section Collection.

(** [self.collection.query(query_texts=[query], n_results=k,
    include=["documents", "metadatas", "distances"])] *)
Variable collection_query : string → Z → result QueryResult.

Definition _semantic_search (query : string) (n_results : Z) : QueryResult :=
  try_except (collection_query query n_results) (fun _ => empty_result).

(** [any(term in doc_lower for term in query_terms)] *)
Definition matches (query_terms : list string) (doc : string) : bool :=
  let doc_lower := PyStr.lower doc in
  PyStr.any (fun term => PyStr.contains doc_lower term) query_terms.

(** The filtering loop of [_keyword_search] (lines 123-132), started at
    index [i]; [filtered] is the three [filtered_*] lists. *)
Fixpoint keyword_loop (results : QueryResult) (query_terms : list string)
    (n_results : Z) (i : nat) (docs : list string) (filtered : QueryResult)
    : result QueryResult :=
  match docs with
  | [] => Ok filtered
  | doc :: rest =>
      filtered ←
        (if matches query_terms doc then
           m ← py_index (metadatas results) i;
           d ← py_index (distances results) i;
           mret (push filtered doc m d)
         else mret filtered);
      if (n_results <=? Z.of_nat (length (documents filtered)))%Z
      then Ok filtered
      else keyword_loop results query_terms n_results (S i) rest filtered
  end.

Definition _keyword_search (query : string) (n_results : Z) : QueryResult :=
  try_except
    (results ← collection_query query (n_results * 2)%Z;
     let query_terms := PyStr.split (PyStr.lower query) in
     keyword_loop results query_terms n_results 0 (documents results) empty_result)
    (fun _ => empty_result).

(** The two merging loops of [_hybrid_search] (lines 163-167 and
    174-178), started at index [i].  [room] is the extra condition of
    the second loop, [len(combined_documents) < n_results]; the first
    loop has none. *)
Fixpoint merge_loop (room : QueryResult → bool) (src : QueryResult) (i : nat)
    (docs : list string) (combined : QueryResult) : result QueryResult :=
  match docs with
  | [] => Ok combined
  | doc :: rest =>
      if negb (bool_decide (doc ∈ documents combined)) && room combined then
        m ← py_index (metadatas src) i;
        d ← py_index (distances src) i;
        merge_loop room src (S i) rest (push combined doc m d)
      else merge_loop room src (S i) rest combined
  end.

Definition has_room (n_results : Z) (combined : QueryResult) : bool :=
  (Z.of_nat (length (documents combined)) <? n_results)%Z.

Definition _hybrid_search (query : string) (n_results : Z) : QueryResult :=
  try_except
    (let semantic_results := _semantic_search query n_results in
     let keyword_results := _keyword_search query n_results in
     combined ← merge_loop (fun _ => true) semantic_results 0
                  (documents semantic_results) empty_result;
     combined ← merge_loop (has_room n_results) keyword_results 0
                  (documents keyword_results) combined;
     mret {| documents := py_slice_to n_results (documents combined);
             metadatas := py_slice_to n_results (metadatas combined);
             distances := py_slice_to n_results (distances combined) |})
    (fun _ => empty_result).

Definition search_similar_content (query : string) (n_results : Z)
    (search_strategy : string) : QueryResult :=
  try_except
    (if String.eqb search_strategy "semantic" then
       Ok (_semantic_search query n_results)
     else if String.eqb search_strategy "keyword" then
       Ok (_keyword_search query n_results)
     else if String.eqb search_strategy "hybrid" then
       Ok (_hybrid_search query n_results)
     else Ok (_semantic_search query n_results))
    (fun _ => empty_result).

End Collection.

End TextIndexer.

(** * Timestamps *)

Module Timestamp.

(** What the formatter may be handed: an [int], a (finite) [float], or a
    value that supports neither [//] nor [%] with an [int]. *)
Inductive PyVal :=
| PyInt (z : Z)
| PyFloat (q : Q)
| PyStr (s : string)
| PyNone.

Inductive PyNum :=
| NInt (z : Z)
| NFloat (q : Q).

(** Truncation towards zero. *)
Definition truncate (q : Q) : Z :=
  if Qle_bool 0 q then Qfloor q else Qceiling q.

(** C's [fmod(vx, 60.0)]: [vx] minus 60 times the quotient truncated
    towards zero.  It has the sign of [vx] and is exact. *)
Definition fmod60 (vx : Q) : Q :=
  (vx - 60 * inject_Z (truncate (vx / 60)))%Q.

(** [vx % 60] on a float, as the interpreter computes it: the [fmod]
    remainder, moved into the range of the divisor by a float addition
    when it is negative. *)
Definition float_mod60 (vx : Q) : Q :=
  let rem := fmod60 vx in
  if Qeq_bool rem 0 then 0%Q
  else if Qle_bool 0 rem then rem
  else Float64.add rem 60.

(** [vx // 60] on a float, as the interpreter computes it: the float
    quotient of [vx - fmod(vx, 60)] by 60, less one when the remainder
    was negative, snapped to the nearest integral value. *)
Definition float_floordiv60 (vx : Q) : Q :=
  let rem := fmod60 vx in
  let div := Float64.div (Float64.sub vx rem) 60 in
  let div := if Qle_bool 0 rem then div else Float64.sub div 1 in
  if Qeq_bool div 0 then 0%Q
  else
    let floordiv := inject_Z (Qfloor div) in
    if Qle_bool (Float64.sub div floordiv) (1 # 2) then floordiv
    else Float64.add floordiv 1.

(** [seconds // 60] *)
Definition floordiv60 (seconds : PyVal) : result PyNum :=
  match seconds with
  | PyInt z => Ok (NInt (z / 60)%Z)
  | PyFloat q => Ok (NFloat (float_floordiv60 q))
  | PyStr _ => Raise "TypeError: unsupported operand type(s) for //: 'str' and 'int'"
  | PyNone => Raise "TypeError: unsupported operand type(s) for //: 'NoneType' and 'int'"
  end.

(** [seconds % 60] *)
Definition mod60 (seconds : PyVal) : result PyNum :=
  match seconds with
  | PyInt z => Ok (NInt (z mod 60)%Z)
  | PyFloat q => Ok (NFloat (float_mod60 q))
  | PyStr _ => Raise "TypeError: not all arguments converted during string formatting"
  | PyNone => Raise "TypeError: unsupported operand type(s) for %: 'NoneType' and 'int'"
  end.

(** [int(x)]: truncation towards zero. *)
Definition py_int (x : PyNum) : Z :=
  match x with
  | NInt z => z
  | NFloat q => truncate q
  end.

(** [s.rjust(width, '0')] *)
Definition zfill (width : nat) (s : string) : string :=
  String.concat "" (replicate (width - String.length s) "0") +:+ s.

(** [f"{z:02d}"]: zero padding between the sign and the digits, to a
    total width of two. *)
Definition fmt_02d (z : Z) : string :=
  if (z <? 0)%Z then "-" +:+ zfill 1 (pretty (Z.to_N (- z)))
  else zfill 2 (pretty (Z.to_N z)).

(** [RAGEngine._format_timestamp] *)
Definition _format_timestamp (seconds : PyVal) : string :=
  try_except
    (m ← floordiv60 seconds;
     let minutes := py_int m in
     r ← mod60 seconds;
     let secs := py_int r in
     mret (fmt_02d minutes +:+ ":" +:+ fmt_02d secs))
    (fun _ => "00:00").

(** [utils.format_time] *)
Definition format_time (seconds : PyVal) : string :=
  try_except
    (m ← floordiv60 seconds;
     let minutes := py_int m in
     r ← mod60 seconds;
     let secs := py_int r in
     mret (fmt_02d minutes +:+ ":" +:+ fmt_02d secs))
    (fun _ => "00:00").

End Timestamp.


(** * RAG engine *)

Module RAGEngine.
Import TextIndexer Timestamp.

Definition nl : string := String (Ascii.ascii_of_nat 10) "".

(** The f-string of lines 135-139, for the [i]-th result. *)
Definition context_part (i : nat) (doc : string) (metadata : Metadata) : string :=
  let start_str := _format_timestamp (PyFloat (meta_start_time metadata)) in
  let end_str := _format_timestamp (PyFloat (meta_end_time metadata)) in
  nl +:+ "Source " +:+ pretty (i + 1)%nat +:+ " - " +:+ episode_title metadata
     +:+ " (" +:+ start_str +:+ " - " +:+ end_str +:+ ")" +:+ nl
     +:+ "Speaker: " +:+ meta_speaker metadata +:+ nl
     +:+ "Content: " +:+ doc +:+ nl.

(** [for i, (doc, metadata) in enumerate(zip(documents, metadatas))] *)
Fixpoint context_loop (i : nat) (pairs : list (string * option Metadata))
    : list string :=
  match pairs with
  | [] => []
  | (doc, metadata) :: rest =>
      match PyStr.truthy doc, metadata with
      | true, Some md => context_part i doc md :: context_loop (S i) rest
      | _, _ => context_loop (S i) rest
      end
  end.

Definition format_context (search_results : QueryResult) : string :=
  try_except
    (match documents search_results with
     | [] => Ok "No relevant content found."
     | _ => Ok (String.concat nl
                  (context_loop 0 (zip (documents search_results)
                                       (metadatas search_results))))
     end)
    (fun _ => "Error formatting context.").

(** The prompt template shared by both backends. *)
Definition prompt (query context : string) : string :=
  "You are an AI assistant that helps users find information from podcast transcripts. " +:+ nl
  +:+ "Based on the provided context from podcast episodes, answer the user's question accurately and provide specific timestamps when possible." +:+ nl
  +:+ nl
  +:+ "Context from podcast transcripts:" +:+ nl
  +:+ context +:+ nl
  +:+ nl
  +:+ "User Question: " +:+ query +:+ nl
  +:+ nl
  +:+ "Instructions:" +:+ nl
  +:+ "1. Answer based only on the provided context" +:+ nl
  +:+ "2. Include specific episode titles and timestamps in your response" +:+ nl
  +:+ "3. If the context doesn't contain enough information, say so" +:+ nl
  +:+ "4. Provide direct quotes when relevant" +:+ nl
  +:+ "5. Format timestamps as MM:SS" +:+ nl
  +:+ "6. Mention speakers when relevant" +:+ nl
  +:+ "7. If searching across multiple episodes, highlight patterns or differences" +:+ nl
  +:+ nl
  +:+ "Answer:".

(** [not key]: [None] and the empty string are falsy. *)
Definition key_missing (key : option string) : bool :=
  match key with
  | None => true
  | Some k => negb (PyStr.truthy k)
  end.

Record SearchInfo := {
  strategy : string;
  model : string;
  results_count : nat
}.

Record Answer := {
  response : string;
  sources : QueryResult;
  search_info : SearchInfo
}.

Section Engine.

(** [self.gemini_key], [self.openai_key], [self.default_model] *)
Variables (gemini_key openai_key : option string) (default_model : string).

(** [genai.GenerativeModel('gemini-1.5-flash').generate_content(p).text] *)
Variable gemini_generate_content : string → result string.

(** [openai.ChatCompletion.create(...).choices[0].message.content] for
    the user message [p] *)
Variable openai_chat_completion : string → result string.

(** The collection of the [text_indexer] argument. *)
Variable collection_query : string → Z → result QueryResult.

Definition generate_gemini_response (query context search_strategy : string)
    : string :=
  try_except
    (if key_missing gemini_key then
       Ok "Error: Gemini API key not configured. Please set your Gemini API key in config.json or environment variables."
     else gemini_generate_content (prompt query context))
    (fun e => "Error generating response: " +:+ e).

Definition generate_openai_response (query context search_strategy : string)
    : string :=
  try_except
    (if key_missing openai_key then
       Ok "Error: OpenAI API key not configured. Please set your OpenAI API key in config.json or environment variables."
     else openai_chat_completion (prompt query context))
    (fun e => "Error generating response: " +:+ e).

Definition query_podcasts (query : string) (n_results : Z)
    (search_strategy : string) (model0 : option string) : Answer :=
  let model := match model0 with None => default_model | Some m => m end in
  try_except
    (let search_results :=
       search_similar_content collection_query query n_results search_strategy in
     let context := format_context search_results in
     let response :=
       if String.eqb model "gemini" then
         generate_gemini_response query context search_strategy
       else if String.eqb model "openai" then
         generate_openai_response query context search_strategy
       else "Error: Unknown model '" +:+ model
            +:+ "'. Available models: gemini, openai" in
     Ok {| response := response;
           sources := search_results;
           search_info :=
             {| strategy := search_strategy;
                model := model;
                results_count := length (documents search_results) |} |})
    (fun e =>
       {| response := "Error processing query: " +:+ e;
          sources := empty_result;
          search_info :=
            {| strategy := search_strategy; model := model;
               results_count := 0 |} |}).

End Engine.

End RAGEngine.

(** * Auxiliary notions used in the statements *)

Module ChunkerSpec.
Import AudioProcessor Examples.

(** Two segments separated by a long silence, no speaker labels. *)
Definition gap_segments : Transcript :=
  {| segments := [seg 0 10 "a"; seg 100 101 "b"] |}.

(** Three back-to-back segments of twenty, twenty and five seconds. *)
Definition back_to_back : Transcript :=
  {| segments := [seg 0 20 "a"; seg 20 40 "b"; seg 40 45 "c"] |}.

(** One segment longer than the default threshold. *)
Definition one_long_segment : Transcript :=
  {| segments := [seg 0 40 "a"] |}.

Definition chunk (t : string) (a e : Q) (sp : string) : Chunk :=
  {| text := t; start_time := Some a; end_time := Some e;
     words := []; speaker := sp |}.




(** The running speaker counter at segment [i], as the algorithm is
    described: zero at the first segment, one more after each pause
    longer than two seconds.  The pause is the float difference the
    source computes. *)
Fixpoint running_counter (segs : list Segment) (i : nat) : nat :=
  match i with
  | 0 => 0
  | S j =>
      match segs !! j, segs !! S j with
      | Some prev, Some cur =>
          if negb (Qle_bool (Float64.sub (seg_start cur) (seg_end prev)) 2)
          then S (running_counter segs j)
          else running_counter segs j
      | _, _ => running_counter segs j
      end
  end.

(** The state of the loop of [identify_speakers] after the segments
    [done]. *)
Definition loop_inv (all done : list Segment) (speakers : gmap nat string)
    (speaker_count : nat) : Prop :=
  (∀ j, j < length done →
        speakers !! j = Some (speaker_label (running_counter all j)))
  ∧ (∀ j, length done ≤ j → speakers !! j = None)
  ∧ speaker_count = running_counter all (length done - 1).

End ChunkerSpec.

Module SearchSpec.
Import TextIndexer.

(** One hit: document text, metadata, distance. *)
Definition row : Type := string * option Metadata * Q.

Definition row_doc (r : row) : string := r.1.1.

(** The hits of a result, read across its three parallel lists. *)
Definition rows (r : QueryResult) : list row :=
  zip (zip (documents r) (metadatas r)) (distances r).

(** The three lists of a result are parallel. *)
Definition well_formed (r : QueryResult) : Prop :=
  length (metadatas r) = length (documents r)
  ∧ length (distances r) = length (documents r).

(** Hits whose document text is neither in [seen] nor carried by an
    earlier hit of the list: de-duplication by exact document text,
    first occurrence kept. *)
Fixpoint dedup_by_doc (seen : list string) (rs : list row) : list row :=
  match rs with
  | [] => []
  | r :: rest =>
      if bool_decide (row_doc r ∈ seen) then dedup_by_doc seen rest
      else r :: dedup_by_doc (row_doc r :: seen) rest
  end.

(** The query consists of white space only. *)
Fixpoint all_space (s : string) : bool :=
  match s with
  | EmptyString => true
  | String c s' => PyStr.is_space c && all_space s'
  end.

(** The query is one word: it has no white space and is not empty. *)
Fixpoint no_space (s : string) : bool :=
  match s with
  | EmptyString => true
  | String c s' => negb (PyStr.is_space c) && no_space s'
  end.

(** [ws] are the white-space separated terms of [s], in order: white
    space is skipped, and a term is a non-empty run of other characters
    that ends at a white-space character or at the end of [s]. *)
Inductive words_of : string → list string → Prop :=
| words_nil : words_of "" []
| words_skip c s ws :
    PyStr.is_space c = true → words_of s ws → words_of (String c s) ws
| words_last w :
    w ≠ "" → no_space w = true → words_of w [w]
| words_next w c s ws :
    w ≠ "" → no_space w = true → PyStr.is_space c = true →
    words_of s ws → words_of (w +:+ String c s) (w :: ws).

Definition meta (i : nat) : option Metadata :=
  Some {| episode_id := "ep1"; episode_title := "Founders";
          meta_start_time := 0; meta_end_time := 30;
          meta_speaker := "Speaker_0"; chunk_index := i |}.

(** A store of five chunks, listed by increasing distance to any query.
    Only the third mentions a startup. *)
Definition five_chunks : QueryResult :=
  {| documents := ["We raised money last year";
                   "Hiring engineers is hard";
                   "My first Startup failed";
                   "Marketing on a budget";
                   "Remote work culture"];
     metadatas := [meta 0; meta 1; meta 2; meta 3; meta 4];
     distances := [1 # 10; 2 # 10; 3 # 10; 4 # 10; 5 # 10] |}.


(** The first [k] hits of a stored ranking. *)
Definition top (k : Z) (r : QueryResult) : QueryResult :=
  {| documents := take (Z.to_nat k) (documents r);
     metadatas := take (Z.to_nat k) (metadatas r);
     distances := take (Z.to_nat k) (distances r) |}.

(** A collection that answers every query with its best [k] chunks and
    rejects a non-positive [k]. *)
Definition ranked_collection (store : QueryResult) (query : string) (k : Z)
    : result QueryResult :=
  if (k <=? 0)%Z then
    Raise "Number of requested results cannot be negative, or zero."
  else Ok (top k store).

(** A collection that in addition rejects a request for more results
    than it stores. *)
Definition strict_collection (store : QueryResult) (query : string) (k : Z)
    : result QueryResult :=
  if (k <=? 0)%Z then
    Raise "Number of requested results cannot be negative, or zero."
  else if (Z.of_nat (length (documents store)) <? k)%Z then
    Raise "Number of requested results cannot be greater than number of elements in index"
  else Ok (top k store).

(** A collection that is down. *)
Definition failing_collection (query : string) (k : Z) : result QueryResult :=
  Raise "connection refused".

(** The values of [n_results] with which a strategy queries the
    collection, read off [search_similar_content] and the three
    strategies: one call for semantic (and any unrecognised strategy),
    one for keyword, two for hybrid. *)
Definition calls_issued (search_strategy : string) (n_results : Z) : list Z :=
  if String.eqb search_strategy "keyword" then [(n_results * 2)%Z]
  else if String.eqb search_strategy "hybrid" then [n_results; (n_results * 2)%Z]
  else [n_results].

(** The search returns the empty result as soon as one of the calls it
    issues to the collection raises. *)
Definition empty_on_any_backend_error : Prop :=
  ∀ (collection_query : string → Z → result QueryResult)
    (query : string) (n_results : Z) (search_strategy : string)
    (k : Z) (e : string),
    k ∈ calls_issued search_strategy n_results →
    collection_query query k = Raise e →
    search_similar_content collection_query query n_results search_strategy
      = empty_result.


End SearchSpec.

Module TimestampSpec.

(** The decimal digit [d], for [0 <= d < 10]. *)
Definition digit (d : Z) : Ascii.ascii := Ascii.ascii_of_nat (48 + Z.to_nat d).

(** A number below one hundred written with exactly two digits. *)
Definition two_digits (n : Z) : string :=
  String (digit (n / 10)) (String (digit (n mod 10)) "").

(** [fmt_02d] agrees with [two_digits] on every number below [bound]. *)
Fixpoint two_digits_upto (bound : nat) : bool :=
  match bound with
  | 0 => true
  | S k => String.eqb (Timestamp.fmt_02d (Z.of_nat k)) (two_digits (Z.of_nat k))
           && two_digits_upto k
  end.

End TimestampSpec.

(** * Further notions: shape of the chunks, speaker count *)

Module ChunkerShape.
Import AudioProcessor.

(** Some character of [s] is not white space. *)
Fixpoint has_visible (s : string) : bool :=
  match s with
  | EmptyString => false
  | String c s' => negb (PyStr.is_space c) || has_visible s'
  end.

(** Some character of [s] is an ASCII character other than white
    space. *)
Fixpoint has_visible_ascii (s : string) : bool :=
  match s with
  | EmptyString => false
  | String c s' =>
      (PyStr.is_ascii_char c && negb (PyStr.is_space c)) || has_visible_ascii s'
  end.

(** The texts of the segments, each preceded by one space. *)
Fixpoint joined_text (segs : list Segment) : string :=
  match segs with
  | [] => ""
  | s :: rest => " " +:+ seg_text s +:+ joined_text rest
  end.

(** The word entries of the segments, in order. *)
Fixpoint joined_words (segs : list Segment) : list Word :=
  match segs with
  | [] => []
  | s :: rest => seg_words s ++ joined_words rest
  end.

(** The accumulator after the segments [done] of [segs]: still the
    initial one, or opened at a segment [j] of [done], labelled with that
    segment's speaker and ending with the last segment of [done]. *)
Definition opened_at (speakers : option (gmap nat string)) (segs done : list Segment)
    (cur : Chunk) : Prop :=
  (done = [] ∧ cur = initial_chunk) ∨
  (∃ j sj pre p, done = pre ++ [p] ∧ j ≤ length pre ∧ segs !! j = Some sj ∧
     start_time cur = Some (seg_start sj) ∧ end_time cur = Some (seg_end p) ∧
     speaker cur = speaker_of speakers j).

(** A chunk that runs from the start of a segment [j] to the end of a
    segment [k], not before [j], with the speaker of segment [j]. *)
Definition spans_segments (speakers : option (gmap nat string)) (segs : list Segment)
    (c : Chunk) : Prop :=
  ∃ j k sj sk, j ≤ k ∧ segs !! j = Some sj ∧ segs !! k = Some sk ∧
    start_time c = Some (seg_start sj) ∧ end_time c = Some (seg_end sk) ∧
    speaker c = speaker_of speakers j.

(** [len(set(speakers.values())) if speakers else 0], the speaker count
    the application stores for an episode (app.py, line 79). *)
Definition count_speakers (speakers : gmap nat string) : nat :=
  if decide (speakers = ∅) then 0
  else size (list_to_set (map_to_list speakers).*2 : gset string).

(** The segments [done] are each contained in the text of an appended
    chunk or of the accumulator. *)
Definition covered (done : list Segment) (st : list Chunk * Chunk) : Prop :=
  ∀ s, s ∈ done →
    (∃ c, c ∈ fst st ∧ PyStr.contains (text c) (seg_text s) = true)
    ∨ PyStr.contains (text (snd st)) (seg_text s) = true.

End ChunkerShape.

(** * Text indexer: indexing, episode search, statistics *)

Module IndexerStore.
Import AudioProcessor TextIndexer.

(** The metadata dictionary of lines 46-53.  The times are whatever the
    chunk holds under ['start_time'] and ['end_time']. *)
Record ChunkMetadata := {
  cm_episode_id : string;
  cm_episode_title : string;
  cm_start_time : option Q;
  cm_end_time : option Q;
  cm_speaker : string;
  cm_chunk_index : nat
}.

(** The three lists handed to [collection.add]. *)
Record Batch := {
  batch_documents : list string;
  batch_metadatas : list ChunkMetadata;
  batch_ids : list string
}.

Definition empty_batch : Batch :=
  {| batch_documents := []; batch_metadatas := []; batch_ids := [] |}.

(** [f"{episode_id}_chunk_{i}"] *)
Definition chunk_id (episode_id : string) (i : nat) : string :=
  episode_id +:+ "_chunk_" +:+ pretty i.

Definition chunk_metadata (episode_id episode_title : string) (i : nat)
    (chunk : Chunk) : ChunkMetadata :=
  {| cm_episode_id := episode_id;
     cm_episode_title := episode_title;
     cm_start_time := start_time chunk;
     cm_end_time := end_time chunk;
     cm_speaker := speaker chunk;
     cm_chunk_index := i |}.

(** The loop of [add_transcript_chunks] (lines 39-60), started at index
    [i]. *)
Fixpoint add_loop (episode_id episode_title : string) (i : nat)
    (chunks : list Chunk) (acc : Batch) : Batch :=
  match chunks with
  | [] => acc
  | chunk :: rest =>
      let text0 := text chunk in
      if negb (PyStr.truthy (PyStr.strip text0)) then
        add_loop episode_id episode_title (S i) rest acc
      else
        add_loop episode_id episode_title (S i) rest
          {| batch_documents := batch_documents acc ++ [text0];
             batch_metadatas :=
               batch_metadatas acc
               ++ [chunk_metadata episode_id episode_title i chunk];
             batch_ids := batch_ids acc ++ [chunk_id episode_id i] |}
  end.

Section Store.

(** [self.collection.add(documents=..., metadatas=..., ids=...)] *)
Variable collection_add : Batch → result unit.

(** [self.collection.query(query_texts=[query], n_results=k,
    where={"episode_id": episode_id}, include=[...])] *)
Variable collection_query_where : string → Z → string → result QueryResult.

(** [self.collection.get(where={"episode_id": episode_id},
    include=["documents", "metadatas"])], as the pair of
    [results.get('documents', [])] and [results.get('metadatas', [])]. *)
Variable collection_get_where :
  string → result (list string * list (option Metadata)).

(** [self.collection.count()] *)
Variable collection_count : result nat.

(** [self.collection.get(include=["metadatas"]).get('metadatas', [])] *)
Variable collection_get_metadatas : result (list (option Metadata)).

(** [add_transcript_chunks]: the handler logs and re-raises. *)
Definition add_transcript_chunks (chunks : list Chunk)
    (episode_id episode_title : string) : result unit :=
  let batch := add_loop episode_id episode_title 0 chunks empty_batch in
  match batch_documents batch with
  | [] => Ok tt
  | _ => collection_add batch
  end.

Definition search_by_episode (episode_id query : string) (n_results : Z)
    : QueryResult :=
  try_except
    (if PyStr.truthy query then
       collection_query_where query n_results episode_id
     else
       results ← collection_get_where episode_id;
       mret {| documents := results.1;
               metadatas := results.2;
               distances := replicate (length results.1) 0%Q |})
    (fun _ => empty_result).

(** The dictionary returned by [get_collection_stats]; the handler's
    dictionary has neither [episode_titles] nor [max_capacity]. *)
Record CollectionStats := {
  total_chunks : nat;
  total_episodes : nat;
  episode_ids : list string;
  episode_titles : option (gmap string string);
  indexing_capacity : string;
  max_capacity : option nat
}.

(** The loop of lines 230-234 over the stored metadata. *)
Fixpoint stats_loop (all_metadata : list (option Metadata))
    (ids : gset string) (titles : gmap string string)
    : gset string * gmap string string :=
  match all_metadata with
  | [] => (ids, titles)
  | Some metadata :: rest =>
      stats_loop rest ({[TextIndexer.episode_id metadata]} ∪ ids)
        (<[TextIndexer.episode_id metadata := TextIndexer.episode_title metadata]>
           titles)
  | None :: rest => stats_loop rest ids titles
  end.

(** Lines 237-243. *)
Definition capacity_status (n : nat) : string :=
  if 3 <=? n then "Successfully indexing " +:+ pretty n +:+ " episodes"
  else if n =? 2 then "Ready for 3rd episode"
  else if n =? 1 then "Ready for 2nd and 3rd episodes"
  else "Ready for more episodes".

Definition get_collection_stats : CollectionStats :=
  try_except
    (count ← collection_count;
     all_metadata ← collection_get_metadatas;
     let '(ids, titles) := stats_loop all_metadata ∅ ∅ in
     mret {| total_chunks := count;
             total_episodes := size ids;
             episode_ids := elements ids;
             episode_titles := Some titles;
             indexing_capacity := capacity_status (size ids);
             max_capacity := Some 100 |})
    (fun _ =>
       {| total_chunks := 0; total_episodes := 0; episode_ids := [];
          episode_titles := None;
          indexing_capacity := "Ready for 3+ episodes";
          max_capacity := None |}).

End Store.

(** The chunks that are indexed, each with its position in the list. *)
Definition indexed (chunks : list Chunk) : list (nat * Chunk) :=
  List.filter (fun ic => ChunkerShape.has_visible (text ic.2))
    (imap (fun i c => (i, c)) chunks).

(** Three chunks, the second without visible text. *)
Definition sample_chunks : list Chunk :=
  [ChunkerSpec.chunk " hello" 0 10 "Speaker_0";
   ChunkerSpec.chunk "   " 10 12 "Speaker_0";
   ChunkerSpec.chunk " world" 15 20 "Speaker_1"].

(** A collection that refuses every batch, naming the ids it was
    given. *)
Definition refusing_collection (batch : Batch) : result unit :=
  Raise (String.concat "," (batch_ids batch)).

(** The stored metadata that are present. *)
Definition present (all_metadata : list (option Metadata)) : list Metadata :=
  omap id all_metadata.

End IndexerStore.

(** * RAG engine: recommendations and model status *)

Module RAGAdvice.
Import RAGEngine.

Definition semantic_keywords : list string :=
  ["how"; "why"; "what"; "explain"; "describe"; "discuss"; "analyze"].

Definition keyword_keywords : list string :=
  ["specific"; "exact"; "precise"; "term"; "phrase"].

(** [sum(1 for word in words if word in query_lower)] *)
Definition keyword_hits (words : list string) (query_lower : string) : nat :=
  sum_list ((fun _ => 1) <$>
            List.filter (fun word => PyStr.contains query_lower word) words).

Record Recommendation := {
  primary_recommendation : string;
  all_strategies : list (string * string)
}.

Definition get_search_recommendations (query : string) : Recommendation :=
  try_except
    (let query_lower := PyStr.lower query in
     let semantic_score := keyword_hits semantic_keywords query_lower in
     let keyword_score := keyword_hits keyword_keywords query_lower in
     let primary_recommendation :=
       if keyword_score <? semantic_score then "semantic"
       else if semantic_score <? keyword_score then "keyword"
       else "hybrid" in
     Ok {| primary_recommendation := primary_recommendation;
           all_strategies :=
             [("semantic", "Best for conceptual questions and understanding context");
              ("keyword", "Best for finding specific terms and exact matches");
              ("hybrid", "Combines semantic understanding with keyword precision")] |})
    (fun _ =>
       {| primary_recommendation := "semantic";
          all_strategies :=
            [("semantic", "Default strategy");
             ("keyword", "Keyword-based search");
             ("hybrid", "Combined approach")] |}).

Record ModelInfo := {
  name : string;
  description : string;
  status : string;
  speed : string;
  accuracy : string
}.

(** ["available" if key else "no_api_key"] *)
Definition key_status (key : option string) : string :=
  if key_missing key then "no_api_key" else "available".

(** [get_available_models], the dictionary as the list of its items. *)
Definition get_available_models (gemini_key openai_key : option string)
    : list (string * ModelInfo) :=
  [("gemini",
    {| name := "Google Gemini";
       description := "Google's advanced language model";
       status := key_status gemini_key;
       speed := "Fast";
       accuracy := "Excellent" |});
   ("openai",
    {| name := "OpenAI GPT";
       description := "OpenAI's GPT-3.5-turbo model";
       status := key_status openai_key;
       speed := "Medium";
       accuracy := "Excellent" |})].

(** The status listed for a model id. *)
Definition listed_status (models : list (string * ModelInfo)) (id : string)
    : option string :=
  status <$> (list_to_map models : gmap string ModelInfo) !! id.

(** Document [doc] is retrieved at rank [i], with metadata, and is not
    empty: the pairs [format_context] renders. *)
Definition rendered (search_results : TextIndexer.QueryResult) (i : nat)
    (doc : string) (metadata : TextIndexer.Metadata) : Prop :=
  TextIndexer.documents search_results !! i = Some doc
  ∧ TextIndexer.metadatas search_results !! i = Some (Some metadata)
  ∧ doc ≠ "".

End RAGAdvice.

(** * Utilities: upload validation and the episode store *)

Module Utils.

Definition supported_formats : list string :=
  ["mp3"; "wav"; "m4a"; "flac"; "ogg"].

(** [s.split(sep)] for a one-character separator: the pieces between the
    separators, possibly empty, at least one.  [cur] holds the piece
    being read, most recent character first. *)
Fixpoint split_on_go (sep : Ascii.ascii) (s cur : string) : list string :=
  match s with
  | EmptyString => [PyStr.rev cur]
  | String c s' =>
      if Ascii.eqb c sep then PyStr.rev cur :: split_on_go sep s' EmptyString
      else split_on_go sep s' (String c cur)
  end.

Definition split_on (sep : Ascii.ascii) (s : string) : list string :=
  split_on_go sep s EmptyString.

(** The character ['.']. *)
Definition dot : Ascii.ascii := Ascii.ascii_of_nat 46.

(** [validate_audio_file(uploaded_file)]; an uploaded file is given by
    its [name]. *)
Definition validate_audio_file (uploaded_file : option string) : bool :=
  match uploaded_file with
  | None => false
  | Some name =>
      let file_extension := PyStr.lower (default "" (last (split_on dot name))) in
      bool_decide (file_extension ∈ supported_formats)
  end.

(** The character [sep] does not occur in [s]. *)
Fixpoint free_of (sep : Ascii.ascii) (s : string) : bool :=
  match s with
  | EmptyString => true
  | String c s' => negb (Ascii.eqb c sep) && free_of sep s'
  end.

(** ** The episode store

    The store is the episodes file and the transcripts directory named
    by the configuration.  JSON text is not modelled: a file holds the
    value that was dumped into it, or cannot be parsed.  [writable]
    tells whether creating the data directory and writing the episodes
    file succeed; whether the removals of [clear_storage] succeed is
    told by parameters of their own. *)

(** An episode record as the application builds it (app.py, lines
    74-82). *)
Record Episode := {
  ep_id : option string;
  ep_title : string;
  ep_chunks : nat;
  ep_duration : Q;
  ep_speakers : nat;
  ep_file_name : string;
  ep_processed_at : option string
}.

Inductive EpisodesFile :=
| Missing
| Unreadable
| Stored (episodes : list (string * Episode)).

Record Storage (T : Type) := {
  episodes_file : EpisodesFile;
  transcripts_dir : option (gmap string T);
  writable : bool
}.
Arguments episodes_file {T} _.
Arguments transcripts_dir {T} _.
Arguments writable {T} _.

(** [d[k] = v] on a dictionary kept as the list of its items in insertion
    order: an existing key keeps its place. *)
Fixpoint dict_set (k : string) (v : Episode) (d : list (string * Episode))
    : list (string * Episode) :=
  match d with
  | [] => [(k, v)]
  | (k', v') :: rest =>
      if String.eqb k' k then (k, v) :: rest
      else (k', v') :: dict_set k v rest
  end.

(** [d.get(k)] *)
Fixpoint dict_get (k : string) (d : list (string * Episode)) : option Episode :=
  match d with
  | [] => None
  | (k', v') :: rest => if String.eqb k' k then Some v' else dict_get k rest
  end.

Definition set_processed_at (now : string) (e : Episode) : Episode :=
  {| ep_id := ep_id e; ep_title := ep_title e; ep_chunks := ep_chunks e;
     ep_duration := ep_duration e; ep_speakers := ep_speakers e;
     ep_file_name := ep_file_name e; ep_processed_at := Some now |}.

(** [f"episode_{n}"], the ids the application gives (app.py, line
    70). *)
Definition application_id (n : nat) : string := "episode_" +:+ pretty n.

(** [f"{episode_id}_transcript.json"] *)
Definition transcript_file (episode_id : string) : string :=
  episode_id +:+ "_transcript.json".

Record EpisodeStats := {
  total_episodes : nat;
  total_duration : Q;
  total_chunks : nat;
  episodes : list Episode;
  storage_capacity : string;
  max_capacity : option nat
}.

(** The dictionary returned for an empty store and by the handler. *)
Definition no_episodes : EpisodeStats :=
  {| total_episodes := 0; total_duration := 0; total_chunks := 0;
     episodes := []; storage_capacity := "Ready for 3+ episodes";
     max_capacity := None |}.

(** Lines 164-170. *)
Definition storage_status (n : nat) : string :=
  if 3 <=? n then "Successfully storing " +:+ pretty n +:+ " episodes"
  else if n =? 2 then "Ready for 3rd episode"
  else if n =? 1 then "Ready for 2nd and 3rd episodes"
  else "Ready for more episodes".

Section Store.
Context {T : Type}.

(** Python's [sum] over the durations.  They are floats: the additions
    are rounded, and how they are carried out (one after the other, or
    with a correction term) depends on the interpreter version. *)
Variable py_sum : list Q → Q.

(** Whether [os.remove(episodes_file)] succeeds. *)
Variable os_remove : bool.

(** [shutil.rmtree(transcripts_dir)] on a directory holding [files]:
    [None] when the directory is removed, [Some remaining] when it
    raises, the files [remaining] being left. *)
Variable shutil_rmtree : gmap string T → option (gmap string T).

Definition load_episode_data (st : Storage T) : list (string * Episode) :=
  try_except
    (match episodes_file st with
     | Stored existing => Ok existing
     | Missing => Ok []
     | Unreadable => Raise "JSONDecodeError"
     end)
    (fun _ => []).

(** [save_episode_data(episode_data)]; [now] is
    [datetime.now().isoformat()]. *)
Definition save_episode_data (now : string) (episode_data : Episode)
    (st : Storage T) : bool * Storage T :=
  if negb (writable st) then (false, st)
  else
    let existing_episodes := load_episode_data st in
    let existing_episodes :=
      match ep_id episode_data with
      | Some episode_id =>
          if PyStr.truthy episode_id then
            dict_set episode_id (set_processed_at now episode_data)
              existing_episodes
          else existing_episodes
      | None => existing_episodes
      end in
    (true, {| episodes_file := Stored existing_episodes;
              transcripts_dir := transcripts_dir st;
              writable := writable st |}).

(** [save_transcript(episode_id, transcript)], for an id that is a
    plain file name such as the ids of the application: the file is an
    entry of the transcripts directory, and different ids are different
    entries.  An id with path separators may name a file elsewhere and
    is outside this model. *)
Definition save_transcript (episode_id : string) (transcript : T)
    (st : Storage T) : bool * Storage T :=
  if negb (writable st) then (false, st)
  else
    (true, {| episodes_file := episodes_file st;
              transcripts_dir :=
                Some (<[transcript_file episode_id := transcript]>
                        (default ∅ (transcripts_dir st)));
              writable := writable st |}).

Definition load_transcript (episode_id : string) (st : Storage T) : option T :=
  match transcripts_dir st with
  | Some files => files !! transcript_file episode_id
  | None => None
  end.

Definition get_episode_stats (st : Storage T) : EpisodeStats :=
  try_except
    (let loaded := load_episode_data st in
     match loaded with
     | [] => Ok no_episodes
     | _ =>
         let values := loaded.*2 in
         Ok {| total_episodes := length loaded;
               total_duration := py_sum (ep_duration <$> values);
               total_chunks := fold_left Nat.add (ep_chunks <$> values) 0;
               episodes := values;
               storage_capacity := storage_status (length loaded);
               max_capacity := Some 100 |}
     end)
    (fun _ => no_episodes).

(** Lines 199-200: the episodes file is removed if it exists. *)
Definition remove_episodes_file (st : Storage T) : result (Storage T) :=
  match episodes_file st with
  | Missing => Ok st
  | _ =>
      if os_remove then
        Ok {| episodes_file := Missing; transcripts_dir := transcripts_dir st;
              writable := writable st |}
      else Raise "PermissionError"
  end.

(** Lines 203-205: the transcripts directory is removed if it exists. *)
Definition remove_transcripts_dir (st : Storage T) : bool * Storage T :=
  match transcripts_dir st with
  | None => (true, st)
  | Some files =>
      match shutil_rmtree files with
      | None =>
          (true, {| episodes_file := episodes_file st; transcripts_dir := None;
                    writable := writable st |})
      | Some remaining =>
          (false, {| episodes_file := episodes_file st;
                     transcripts_dir := Some remaining;
                     writable := writable st |})
      end
  end.

(** [clear_storage()]: the file first, then the directory; the first
    failure ends the call with [False], what was removed before stays
    removed. *)
Definition clear_storage (st : Storage T) : bool * Storage T :=
  match remove_episodes_file st with
  | Raise _ => (false, st)
  | Ok st => remove_transcripts_dir st
  end.

End Store.

(** ** Sample values *)

Definition sample_episode : Episode :=
  {| ep_id := Some "episode_0"; ep_title := "Founders"; ep_chunks := 3;
     ep_duration := 90; ep_speakers := 2; ep_file_name := "talk.mp3";
     ep_processed_at := None |}.

Definition anonymous_episode : Episode :=
  {| ep_id := None; ep_title := "Founders"; ep_chunks := 3;
     ep_duration := 90; ep_speakers := 2; ep_file_name := "talk.mp3";
     ep_processed_at := None |}.

(** Nothing stored yet. *)
Definition fresh_store : Storage unit :=
  {| episodes_file := Missing; transcripts_dir := None; writable := true |}.

(** Nothing stored, and nothing can be written. *)
Definition locked_store : Storage unit :=
  {| episodes_file := Missing; transcripts_dir := None; writable := false |}.

(** The durations added up exactly, as they are when the floats are
    small integers. *)
Definition exact_sum (durations : list Q) : Q := fold_left Qplus durations 0%Q.

(** A directory whose removal fails, leaving every file. *)
Definition rmtree_refused (files : gmap string unit)
    : option (gmap string unit) := Some files.

(** An episodes file that cannot be parsed, next to one transcript. *)
Definition damaged_store : Storage unit :=
  {| episodes_file := Unreadable;
     transcripts_dir := Some {[ "episode_0_transcript.json" := tt ]};
     writable := true |}.

End Utils.

(** * Part II: properties *)

(** * Binary64 rounding *)

Module Float64Facts.
Import Float64.

Lemma Qred_inject_Z (k : Z) : Qred (inject_Z k) = inject_Z k.
Proof.
  unfold Qred, inject_Z.
  generalize (Z.ggcd_gcd k 1) (Z.ggcd_correct_divisors k 1).
  destruct (Z.ggcd k 1) as (g, (aa, bb)). cbn [fst snd].
  intros Hg [Ha Hb]. rewrite Z.gcd_1_r in Hg. subst g.
  rewrite Z.mul_1_l in Ha, Hb. by subst.
Qed.

Lemma nearest_even_comp (x y : Q) : (x == y)%Q → nearest_even x = nearest_even y.
Proof.
  intros H. unfold nearest_even.
  rewrite (Qfloor_comp _ _ H). unfold Qminus.
  by rewrite (Qcompare_comp _ _ (Qplus_comp _ _ H _ _ (Qeq_refl _)) _ _ (Qeq_refl _)).
Qed.

Lemma nearest_even_integer (m : Z) : nearest_even (inject_Z m) = m.
Proof.
  unfold nearest_even. rewrite Qfloor_Z.
  assert (H : (inject_Z m - inject_Z m ?= 1 # 2)%Q = Lt).
  { rewrite <- Qlt_alt. lra. }
  by rewrite H.
Qed.

Lemma pow2_nonneg (e : Z) : (0 <= e)%Z → (pow2 e == inject_Z (2 ^ e))%Q.
Proof. intros H. unfold pow2. by rewrite Zpower_Qpower. Qed.

Lemma pow2_pos (e : Z) : (0 < pow2 e)%Q.
Proof. apply Qpower_0_lt. lra. Qed.

(** The exponent of a positive integer is its binary logarithm. *)
Lemma exponent_integer (k : Z) : (0 < k)%Z → exponent (inject_Z k) = Z.log2 k.
Proof.
  intros Hk. unfold exponent. cbn [Qnum Qden inject_Z].
  rewrite Z.abs_eq by lia. change (Z.log2 1) with 0%Z. rewrite Z.sub_0_r.
  assert (H : Qle_bool (pow2 (Z.log2 k)) (Qabs (inject_Z k)) = true).
  { apply Qle_bool_iff. rewrite pow2_nonneg by apply Z.log2_nonneg.
    rewrite Qabs_pos.
    - rewrite <- Zle_Qle. apply Z.log2_spec. lia.
    - change 0%Q with (inject_Z 0). rewrite <- Zle_Qle. lia. }
  by rewrite H.
Qed.

(** Integers below [2^53] are floats: rounding leaves them as they are. *)
Lemma round64_integer (x : Q) (k : Z) :
  (x == inject_Z k)%Q → (0 <= k < 2 ^ 53)%Z → round64 x = inject_Z k.
Proof.
  intros Hx Hk. unfold round64.
  rewrite (Qred_complete _ _ Hx), Qred_inject_Z.
  destruct (Qeq_bool (inject_Z k) 0) eqn:H0.
  { apply Qeq_bool_iff in H0. unfold Qeq in H0. cbn in H0.
    replace k with 0%Z by lia. reflexivity. }
  assert (Hpos : (0 < k)%Z).
  { destruct (decide (k = 0%Z)) as [-> | ]; [done | lia]. }
  rewrite exponent_integer by done.
  pose proof (Z.log2_nonneg k) as Hlog.
  assert (Hlog' : (Z.log2 k < 53)%Z) by (apply Z.log2_lt_pow2; lia).
  rewrite Z.max_l by lia.
  set (s := (52 - Z.log2 k)%Z).
  assert (Hulp : (pow2 (Z.log2 k - 52) == / inject_Z (2 ^ s))%Q).
  { replace (Z.log2 k - 52)%Z with (- s)%Z by (unfold s; lia).
    unfold pow2. rewrite Qpower_opp. apply Qinv_comp.
    apply pow2_nonneg. unfold s. lia. }
  assert (Hs : ¬ (inject_Z (2 ^ s) == 0)%Q).
  { change 0%Q with (inject_Z 0). rewrite inject_Z_injective.
    apply Z.pow_nonzero; unfold s; lia. }
  assert (Hm : (inject_Z k / pow2 (Z.log2 k - 52) == inject_Z (k * 2 ^ s))%Q).
  { rewrite Hulp, inject_Z_mult. by field. }
  rewrite (nearest_even_comp _ _ Hm), nearest_even_integer.
  transitivity (Qred (inject_Z k)); [| apply Qred_inject_Z].
  apply Qred_complete. rewrite Hulp, inject_Z_mult. by field.
Qed.

End Float64Facts.


(** * Properties of the temporal chunker *)

Module ChunkerFacts.
Import AudioProcessor Examples ChunkerSpec.

Section Bound.
Variable speakers : option (gmap nat string).
Variable chunk_duration : Q.







End Bound.

(** ** What a closing iteration does *)

(** Whenever an iteration appends a chunk, the chunk is the accumulator
    with the current segment already absorbed, and the new accumulator
    starts with the text of that same segment. *)
Lemma chunk_step_closure speakers chunk_duration chunks cur i s :
  fst (chunk_step speakers chunk_duration (chunks, cur) i s) ≠ chunks →
  let c := absorb cur (speaker_of speakers i) s in
  chunk_step speakers chunk_duration (chunks, cur) i s
    = (chunks ++ [c], reopen (speaker_of speakers i) s)
  ∧ text c = text cur +:+ " " +:+ seg_text s
  ∧ end_time c = Some (seg_end s)
  ∧ text (reopen (speaker_of speakers i) s) = seg_text s.
Proof.
  intros Hne c. unfold chunk_step in Hne |- *. fold c in Hne |- *.
  destruct (negb (String.eqb (speaker_of speakers i) (speaker c))
            && PyStr.truthy (PyStr.strip (text c))); [done |].
  destruct (Qle_bool chunk_duration (span c)); [done |].
  by cbn [fst] in Hne.
Qed.

(** At a speaker change the chunk that is closed keeps the label of the
    previous speaker and contains the text of the new speaker's segment. *)
Lemma chunk_step_speaker_change speakers chunk_duration chunks cur i s a :
  start_time cur = Some a →
  speaker_of speakers i ≠ speaker cur →
  PyStr.truthy (PyStr.strip (text cur +:+ " " +:+ seg_text s)) = true →
  chunk_step speakers chunk_duration (chunks, cur) i s
  = (chunks ++ [{| text := text cur +:+ " " +:+ seg_text s;
                   start_time := Some a;
                   end_time := Some (seg_end s);
                   words := words cur ++ seg_words s;
                   speaker := speaker cur |}],
     reopen (speaker_of speakers i) s).
Proof.
  intros Ha Hsp Htxt. unfold chunk_step, absorb. rewrite Ha.
  cbn [fst snd text speaker]. rewrite Htxt.
  apply String.eqb_neq in Hsp. by rewrite Hsp.
Qed.

(** ** Speaker changes (C1) *)

(** C1.  On the segments 0-10s, 10.5-15s and 18-25s, labelled
    Speaker_0, Speaker_0, Speaker_1 by the segmenter, the chunker returns
    two chunks; the first is labelled Speaker_0 but runs from 0s to 25s
    and its text ends with the text of the Speaker_1 segment, which was
    appended before the speaker test; the second runs from 18s to 25s
    with Speaker_1.  The first chunk is therefore not
    speaker-homogeneous and does not end at 15s. *)
Theorem speaker_change_closes_after_absorbing :
  let speakers := identify_speakers three_segments in
  (speakers !! 0%nat, speakers !! 1%nat, speakers !! 2%nat)
    = (Some "Speaker_0", Some "Speaker_0", Some "Speaker_1")
  ∧ chunk_transcript_by_time three_segments (Some speakers) 30
    = [chunk " hello world ok" 0 25 "Speaker_0"; chunk "ok" 18 25 "Speaker_1"].
Proof. split; vm_compute; reflexivity. Qed.

(** ** Segment coverage (C2) *)

(** C2.  A segment that closes a chunk is both the last segment of the
    closed chunk and the first segment of the next one.  With threshold
    30 and no speaker labels, segments a (0-20s), b (20-40s), c (40-45s)
    give the chunks " a b" and "b c": the text of b is in two chunks.  A
    lone segment of 40 seconds gives two chunks holding its text. *)
Theorem closing_segment_is_in_two_chunks :
  chunk_transcript_by_time back_to_back None 30
    = [chunk " a b" 0 40 "Unknown"; chunk "b c" 20 45 "Unknown"]
  ∧ chunk_transcript_by_time one_long_segment None 30
    = [chunk " a" 0 40 "Unknown"; chunk "a" 0 40 "Unknown"].
Proof. split; vm_compute; reflexivity. Qed.

(** ** The duration bound (C3) *)




End ChunkerFacts.

(** * Properties of the speaker segmenter *)

Module SpeakerFacts.
Import AudioProcessor Examples ChunkerSpec.

Lemma speaker_label_inj (m n : nat) : speaker_label m = speaker_label n → m = n.
Proof.
  unfold speaker_label. intros H. apply (inj (String.app _)) in H.
  by apply (inj pretty) in H.
Qed.

(** The counter grows by one across a long pause and is unchanged
    otherwise. *)
Lemma running_counter_step segs i prev cur :
  segs !! i = Some prev → segs !! S i = Some cur →
  running_counter segs (S i)
  = if negb (Qle_bool (Float64.sub (seg_start cur) (seg_end prev)) 2)
    then S (running_counter segs i) else running_counter segs i.
Proof. intros Hp Hc. cbn [running_counter]. by rewrite Hp, Hc. Qed.

Lemma running_counter_S segs i :
  running_counter segs i ≤ running_counter segs (S i).
Proof.
  cbn [running_counter].
  destruct (segs !! i), (segs !! S i); try lia.
  destruct (negb _); lia.
Qed.

Lemma running_counter_mono segs i j :
  i ≤ j → running_counter segs i ≤ running_counter segs j.
Proof.
  induction 1 as [| j _ IH]; [lia |].
  pose proof (running_counter_S segs j). lia.
Qed.

Lemma loop_inv_step all done segment speakers speaker_count n :
  loop_inv all done speakers speaker_count →
  n = running_counter all (length done) →
  loop_inv all (done ++ [segment])
    (<[length done := speaker_label n]> speakers) n.
Proof.
  unfold loop_inv. rewrite length_app. cbn [length].
  replace (length done + 1 - 1) with (length done) by lia.
  intros (Hlab & Hnone & _) ->. repeat split.
  - intros j Hj. destruct (decide (j = length done)) as [-> | Hne].
    + by rewrite lookup_insert_eq.
    + rewrite lookup_insert_ne by lia. apply Hlab. lia.
  - intros j Hj. rewrite lookup_insert_ne by lia. apply Hnone. lia.
Qed.

Lemma identify_loop_spec all : ∀ segs done speakers speaker_count,
  all = done ++ segs → loop_inv all done speakers speaker_count →
  ∃ sp, identify_loop all (length done) segs speakers speaker_count = Ok sp
        ∧ loop_inv all all sp (running_counter all (length all - 1)).
Proof.
  induction segs as [| segment rest IH];
    intros done speakers speaker_count Hall Hinv.
  - rewrite app_nil_r in Hall. subst done. exists speakers. split; [done |].
    destruct Hinv as (? & ? & ->). repeat split; auto.
  - assert (Hlen : S (length done) = length (done ++ [segment]))
      by (rewrite length_app; simpl; lia).
    assert (Hall' : all = (done ++ [segment]) ++ rest)
      by (by rewrite <- app_assoc).
    assert (Hcur : all !! length done = Some segment)
      by (subst all; by apply list_lookup_middle).
    cbn [identify_loop]. rewrite Hlen.
    destruct (Nat.eqb_spec (length done) 0) as [H0 | H0].
    + (* first segment *)
      apply IH; [done |]. apply (loop_inv_step _ _ _ _ _ _ Hinv).
      destruct Hinv as (_ & _ & ->). rewrite H0. reflexivity.
    + assert (Hprev : ∃ prev, all !! (length done - 1) = Some prev).
      { apply lookup_lt_is_Some. subst all. rewrite length_app. lia. }
      destruct Hprev as [prev Hprev].
      unfold py_index. rewrite Hprev. cbn [mbind result_bind].
      assert (Hstep : running_counter all (length done)
                = if negb (Qle_bool (Float64.sub (seg_start segment) (seg_end prev)) 2)
                  then S (running_counter all (length done - 1))
                  else running_counter all (length done - 1)).
      { replace (length done) with (S (length done - 1)) at 1 by lia.
        apply running_counter_step; [done |].
        by replace (S (length done - 1)) with (length done) by lia. }
      pose proof Hinv as (Hlab & _ & Hcount).
      destruct (negb (Qle_bool (Float64.sub (seg_start segment) (seg_end prev)) 2)).
      * apply IH; [done |]. apply (loop_inv_step _ _ _ _ _ _ Hinv).
        by rewrite Hstep, Hcount.
      * rewrite (Hlab (length done - 1)) by lia.
        apply IH; [done |]. rewrite <- Hcount.
        apply (loop_inv_step _ _ _ _ _ _ Hinv). by rewrite Hstep.
Qed.

(** The labelling computed for a transcript: no exception is raised, and
    segment [i] receives the label of the running counter. *)
Lemma identify_speakers_lookup (transcript : Transcript) (i : nat) :
  identify_speakers transcript !! i
  = if decide (i < length (segments transcript))
    then Some (speaker_label (running_counter (segments transcript) i))
    else None.
Proof.
  unfold identify_speakers.
  destruct (segments transcript) as [| s0 rest].
  - cbn [try_except length]. rewrite lookup_empty.
    case_decide; [lia | done].
  - destruct (identify_loop_spec (s0 :: rest) (s0 :: rest) [] ∅ 0 eq_refl)
      as (sp & Hrun & Hlab & Hnone & _).
    { repeat split; simpl; intros; first [lia | apply lookup_empty]. }
    change (length []) with 0 in Hrun. rewrite Hrun. cbn [try_except].
    case_decide; [by apply Hlab | apply Hnone; lia].
Qed.

Lemma pause_test (pause : Q) :
  negb (Qle_bool pause 2) = true ↔ (2 < pause)%Q.
Proof.
  destruct (Qle_bool pause 2) eqn:H; simpl.
  - apply Qle_bool_iff in H. split; [done | intros; lra].
  - split; [intros _ | done]. apply Qnot_le_lt. intros Hle.
    apply Qle_bool_iff in Hle. congruence.
Qed.

(** The pause is the float difference.  Between the floats nearest to
    0.1 and 2.1 it is exactly 2, although the exact difference of these
    two floats is above 2: the second segment keeps the label of the
    first. *)
Lemma pause_is_float_difference :
  let prev_end := Float64.round64 (1 # 10) in
  let curr_start := Float64.round64 (21 # 10) in
  (2 < curr_start - prev_end)%Q
  ∧ Float64.sub curr_start prev_end = 2%Q
  ∧ identify_speakers boundary_segments !! 1 = Some "Speaker_0".
Proof. repeat split; by vm_compute. Qed.

(** C7.  For a non-empty transcript the segmenter labels segment 0 with
    Speaker_0 and there is a numbering [k] of the segments, starting at
    0, such that segment [i] carries the label Speaker_(k i); across a
    boundary whose pause exceeds two seconds the number grows by one and
    the label is new (no earlier segment carries it), otherwise the
    label is that of the previous segment; the labelling is defined on
    exactly the indices of the transcript; the numbers never decrease,
    and a label that was left is not taken up again.  The pause is
    [start - end] as the source computes it, the float difference. *)
Theorem identify_speakers_pause_rule (transcript : Transcript) :
  segments transcript ≠ [] →
  let segs := segments transcript in
  let sp := identify_speakers transcript in
  ∃ k : nat → nat,
    sp !! 0 = Some "Speaker_0" ∧ k 0 = 0
    ∧ (∀ i, i < length segs → sp !! i = Some (speaker_label (k i)))
    ∧ (∀ i, length segs ≤ i → sp !! i = None)
    ∧ (∀ i prev cur, segs !! i = Some prev → segs !! S i = Some cur →
         ((2 < Float64.sub (seg_start cur) (seg_end prev))%Q →
            k (S i) = S (k i) ∧ ∀ j, j ≤ i → sp !! j ≠ sp !! S i)
         ∧ (¬ (2 < Float64.sub (seg_start cur) (seg_end prev))%Q → sp !! S i = sp !! i))
    ∧ (∀ i j, i ≤ j → j < length segs → k i ≤ k j)
    ∧ (∀ i j l, i ≤ j → j ≤ l → l < length segs →
         sp !! i = sp !! l → sp !! j = sp !! i).
Proof.
  intros Hne segs sp. exists (running_counter segs).
  assert (Hin : ∀ i, i < length segs →
            sp !! i = Some (speaker_label (running_counter segs i))).
  { intros i Hi. unfold sp. rewrite identify_speakers_lookup.
    by case_decide. }
  assert (Hpos : 0 < length segs).
  { unfold segs. destruct (segments transcript); [done | simpl; lia]. }
  split; [exact (Hin 0 Hpos) |]. split; [reflexivity |].
  split; [exact Hin |]. split.
  { intros i Hi. unfold sp. rewrite identify_speakers_lookup.
    case_decide; [unfold segs in Hi; lia | done]. }
  split.
  { intros i prev cur Hp Hc.
    pose proof (lookup_lt_Some _ _ _ Hc) as Hlt.
    pose proof (running_counter_step segs i prev cur Hp Hc) as Hstep.
    split.
    - intros Hpause. apply pause_test in Hpause. rewrite Hpause in Hstep.
      split; [done |]. intros j Hj. rewrite (Hin j), (Hin (S i)) by lia.
      intros Heq%(inj Some)%speaker_label_inj.
      pose proof (running_counter_mono segs j i Hj). lia.
    - intros Hpause. rewrite (Hin (S i)), (Hin i) by lia.
      destruct (negb (Qle_bool (Float64.sub (seg_start cur) (seg_end prev)) 2)) eqn:Ht.
      + apply pause_test in Ht. done.
      + by rewrite Hstep. }
  split.
  { intros i j Hij _. by apply running_counter_mono. }
  intros i j l Hij Hjl Hl. rewrite (Hin i), (Hin j), (Hin l) by lia.
  intros Heq%(inj Some)%speaker_label_inj. f_equal. f_equal.
  pose proof (running_counter_mono segs i j Hij).
  pose proof (running_counter_mono segs j l Hjl). lia.
Qed.

Lemma identify_speakers_pause_rule_witness :
  segments boundary_segments ≠ []
  ∧ identify_speakers boundary_segments !! 0 = Some "Speaker_0"
  ∧ identify_speakers boundary_segments !! 1
    = identify_speakers boundary_segments !! 0.
Proof.
  assert (Hne : segments boundary_segments ≠ []) by (vm_compute; discriminate).
  split; [exact Hne |].
  destruct (identify_speakers_pause_rule boundary_segments Hne)
    as (k & H0 & _ & _ & _ & Hstep & _).
  split; [exact H0 |].
  destruct (Hstep 0 (seg 0 (Float64.round64 (1 # 10)) "a")
              (seg (Float64.round64 (21 # 10)) 3 "b") eq_refl eq_refl)
    as [_ Hsame].
  apply Hsame. vm_compute. discriminate.
Defined.

End SpeakerFacts.

(** * Properties of the text indexer *)

Module SearchFacts.
Import TextIndexer SearchSpec.

(** ** Parallel lists *)

Lemma well_formed_empty : well_formed empty_result.
Proof. by split. Qed.

Lemma well_formed_push acc d m x :
  well_formed acc → well_formed (push acc d m x).
Proof. intros [Hm Hd]. split; simpl; rewrite !length_app; simpl; lia. Qed.

Lemma rows_push acc d m x :
  well_formed acc → rows (push acc d m x) = rows acc ++ [(d, m, x)].
Proof.
  intros [Hm Hd]. unfold rows, push. simpl.
  rewrite !zip_with_app; [done | | done].
  rewrite length_zip_with. lia.
Qed.

Lemma rows_lookup r i d m x :
  rows r !! i = Some (d, m, x) →
  documents r !! i = Some d ∧ metadatas r !! i = Some m
  ∧ distances r !! i = Some x.
Proof.
  unfold rows. intros H.
  apply lookup_zip_with_Some in H as ([d' m'] & x' & [= -> -> ->] & H & Hx).
  apply lookup_zip_with_Some in H as (d'' & m'' & [= -> ->] & Hd & Hm).
  done.
Qed.

Lemma length_rows r : well_formed r → length (rows r) = length (documents r).
Proof. intros [Hm Hd]. unfold rows. rewrite !length_zip_with. lia. Qed.

Lemma documents_rows r : well_formed r → row_doc <$> rows r = documents r.
Proof.
  intros [Hm Hd].
  transitivity ((rows r).*1.*1).
  { rewrite <- list_fmap_compose. reflexivity. }
  unfold rows. rewrite fst_zip by (rewrite length_zip_with; lia).
  apply fst_zip. lia.
Qed.

Lemma rows_empty : rows empty_result = [].
Proof. reflexivity. Qed.



(** ** Python string helpers *)

Lemma rev_onto_rev_onto s : ∀ acc acc',
  PyStr.rev_onto (PyStr.rev_onto s acc) acc' = PyStr.rev_onto acc (s +:+ acc').
Proof.
  induction s as [| c s IH]; intros acc acc'; [done |].
  cbn [PyStr.rev_onto]. rewrite IH. reflexivity.
Qed.

Lemma append_empty_r s : s +:+ "" = s.
Proof.
  induction s as [| c s IH]; [done |].
  change (String c s +:+ "") with (String c (s +:+ "")). by rewrite IH.
Qed.

Lemma rev_rev s : PyStr.rev (PyStr.rev s) = s.
Proof.
  unfold PyStr.rev. rewrite rev_onto_rev_onto. cbn [PyStr.rev_onto].
  apply append_empty_r.
Qed.

Lemma rev_onto_cons_ne s : ∀ c acc, PyStr.rev_onto s (String c acc) ≠ "".
Proof. induction s as [| d s IH]; intros c acc; [done |]. apply IH. Qed.

Lemma split_go_no_space s : ∀ cur,
  no_space s = true →
  PyStr.split_go s cur
  = match PyStr.rev_onto s cur with
    | EmptyString => []
    | r => [PyStr.rev r]
    end.
Proof.
  induction s as [| c s IH]; intros cur Hs; [by destruct cur |].
  cbn [no_space] in Hs. apply andb_prop in Hs as [Hc Hs].
  cbn [PyStr.split_go PyStr.rev_onto].
  destruct (PyStr.is_space c); [done |]. by apply IH.
Qed.

(** A non-empty word without white space is its own single term. *)
Lemma split_word s : no_space s = true → s ≠ "" → PyStr.split s = [s].
Proof.
  intros Hs Hne. unfold PyStr.split. rewrite split_go_no_space by done.
  destruct s as [| c s]; [done |]. cbn [PyStr.rev_onto].
  destruct (PyStr.rev_onto s (String c "")) eqn:Hr.
  - by apply rev_onto_cons_ne in Hr.
  - rewrite <- Hr. change (PyStr.rev_onto s (String c ""))
      with (PyStr.rev (String c s)). by rewrite rev_rev.
Qed.

Lemma split_go_all_space s : all_space s = true → PyStr.split_go s "" = [].
Proof.
  induction s as [| c s IH]; [done |]. cbn [all_space PyStr.split_go].
  intros [Hc Hs]%andb_prop. rewrite Hc. by apply IH.
Qed.

Lemma is_space_lower_char c :
  PyStr.is_space (PyStr.lower_char c) = PyStr.is_space c.
Proof. by destruct c as [[] [] [] [] [] [] [] []]. Qed.

Lemma all_space_lower s : all_space (PyStr.lower s) = all_space s.
Proof.
  induction s as [| c s IH]; [done |]. cbn [PyStr.lower all_space].
  by rewrite is_space_lower_char, IH.
Qed.

Lemma no_space_lower s : no_space (PyStr.lower s) = no_space s.
Proof.
  induction s as [| c s IH]; [done |]. cbn [PyStr.lower no_space].
  by rewrite is_space_lower_char, IH.
Qed.

(** A query without a visible character has no terms. *)
Lemma split_blank query :
  all_space query = true → PyStr.split (PyStr.lower query) = [].
Proof.
  intros H. apply split_go_all_space. by rewrite all_space_lower.
Qed.

(** ** The keyword filter *)

Section KeywordLoop.
Variable results : QueryResult.
Variable query_terms : list string.
Variable n_results : Z.

Lemma keyword_loop_wf : ∀ docs i filtered out,
  keyword_loop results query_terms n_results i docs filtered = Ok out →
  well_formed filtered → well_formed out.
Proof.
  induction docs as [| doc rest IH]; intros i filtered out Hrun Hwf.
  - by injection Hrun as <-.
  - cbn [keyword_loop] in Hrun.
    destruct (matches query_terms doc).
    + destruct (py_index (metadatas results) i) as [m |]; [| done].
      destruct (py_index (distances results) i) as [d |]; [| done].
      cbn [mbind result_bind mret result_ret] in Hrun.
      pose proof (well_formed_push filtered doc m d Hwf) as Hwf'.
      destruct (n_results <=? _)%Z; [by injection Hrun as <- | eauto].
    + cbn [mbind result_bind mret result_ret] in Hrun.
      destruct (n_results <=? _)%Z; [by injection Hrun as <- | eauto].
Qed.

(** Without terms nothing is ever retained. *)
Lemma keyword_loop_no_terms : query_terms = [] → ∀ docs i,
  keyword_loop results query_terms n_results i docs empty_result
  = Ok empty_result.
Proof.
  intros ->. induction docs as [| doc rest IH]; intros i; [done |].
  cbn [keyword_loop matches PyStr.any existsb mbind result_bind mret result_ret].
  destruct (n_results <=? _)%Z; [done | apply IH].
Qed.

Hypothesis n_pos : (0 < n_results)%Z.


End KeywordLoop.

(** The keyword result is always made of parallel lists. *)
Lemma keyword_search_wf collection_query query n_results :
  well_formed (_keyword_search collection_query query n_results).
Proof.
  unfold _keyword_search.
  destruct (collection_query query (n_results * 2)%Z) as [results | e];
    cbn [mbind result_bind try_except]; [| apply well_formed_empty].
  destruct (keyword_loop _ _ _ _ _ _) as [out | e] eqn:Hrun;
    cbn [try_except]; [| apply well_formed_empty].
  eapply keyword_loop_wf; [exact Hrun | apply well_formed_empty].
Qed.


Lemma filter_none {A} (p : A → bool) (l : list A) :
  (∀ x, x ∈ l → p x = false) → List.filter p l = [].
Proof.
  induction l as [| x l IH]; intros H; [done |]. cbn [List.filter].
  rewrite (H x) by left. apply IH. intros y Hy. apply H. by right.
Qed.

(** C10.  A query made of white space only (the empty query included)
    has no terms, so no candidate is retained: keyword search returns
    the empty result whatever the collection holds or answers. *)
Theorem keyword_search_blank_query
    (collection_query : string → Z → result QueryResult)
    (query : string) (n_results : Z) :
  all_space query = true →
  PyStr.split (PyStr.lower query) = []
  ∧ _keyword_search collection_query query n_results = empty_result.
Proof.
  intros Hblank. pose proof (split_blank query Hblank) as Hterms.
  split; [exact Hterms |]. unfold _keyword_search.
  destruct (collection_query query (n_results * 2)%Z) as [results | e];
    cbn [mbind result_bind try_except]; [| done].
  by rewrite keyword_loop_no_terms.
Qed.

Lemma keyword_search_blank_query_witness :
  all_space "   " = true
  ∧ _keyword_search (ranked_collection five_chunks) "   " 5 = empty_result.
Proof.
  assert (H : all_space "   " = true) by reflexivity.
  split; [exact H |].
  exact (proj2 (keyword_search_blank_query
                  (ranked_collection five_chunks) "   " 5 H)).
Defined.

(** ** Backend errors and the empty index *)

Lemma py_slice_to_nil {A} (n : Z) : py_slice_to n (@nil A) = [].
Proof. unfold py_slice_to. destruct (0 <=? n)%Z; apply take_nil. Qed.

Lemma semantic_search_empty collection_query query n_results :
  (collection_query query n_results = Ok empty_result
   ∨ ∃ e, collection_query query n_results = Raise e) →
  _semantic_search collection_query query n_results = empty_result.
Proof. unfold _semantic_search. by intros [-> | [e ->]]. Qed.

Lemma keyword_search_empty collection_query query n_results :
  (collection_query query (n_results * 2)%Z = Ok empty_result
   ∨ ∃ e, collection_query query (n_results * 2)%Z = Raise e) →
  _keyword_search collection_query query n_results = empty_result.
Proof. unfold _keyword_search. by intros [-> | [e ->]]. Qed.

Lemma hybrid_search_empty collection_query query n_results :
  _semantic_search collection_query query n_results = empty_result →
  _keyword_search collection_query query n_results = empty_result →
  _hybrid_search collection_query query n_results = empty_result.
Proof.
  intros Hs Hk. unfold _hybrid_search. rewrite Hs, Hk.
  cbn [merge_loop documents metadatas distances empty_result
       mbind result_bind mret result_ret try_except].
  by rewrite !py_slice_to_nil.
Qed.

(** C6, as stated, fails for the hybrid strategy.  Over a store of five
    chunks whose collection rejects a request for more results than it
    holds, a hybrid search for three results issues the requests 3 and
    6; the second raises, yet the search returns the three semantic
    hits. *)
Lemma hybrid_survives_one_backend_error : ¬ empty_on_any_backend_error.
Proof.
  intros H.
  specialize (H (strict_collection five_chunks) "startup" 3%Z "hybrid" 6%Z
                "Number of requested results cannot be greater than number of elements in index").
  assert (Hin : 6%Z ∈ calls_issued "hybrid" 3) by (right; left).
  specialize (H Hin eq_refl). vm_compute in H. discriminate H.
Qed.

(** ** De-duplication by document text *)

Lemma dedup_by_doc_ext rs : ∀ seen seen',
  (∀ d, d ∈ seen ↔ d ∈ seen') →
  dedup_by_doc seen rs = dedup_by_doc seen' rs.
Proof.
  induction rs as [| r rs IH]; intros seen seen' Heq; [done |].
  cbn [dedup_by_doc]. rewrite (bool_decide_ext _ _ (Heq (row_doc r))).
  destruct (bool_decide (row_doc r ∈ seen')).
  - by apply IH.
  - f_equal. apply IH. intros d. rewrite !elem_of_cons. by rewrite Heq.
Qed.

Lemma dedup_by_doc_app l1 : ∀ seen l2 seen2,
  (∀ d, d ∈ seen2 ↔
        d ∈ seen ∨ d ∈ (row_doc <$> dedup_by_doc seen l1)) →
  dedup_by_doc seen (l1 ++ l2)
  = dedup_by_doc seen l1 ++ dedup_by_doc seen2 l2.
Proof.
  induction l1 as [| r l1 IH]; intros seen l2 seen2 Heq.
  - cbn [app dedup_by_doc]. apply dedup_by_doc_ext. intros d.
    rewrite Heq. cbn [dedup_by_doc fmap list_fmap].
    rewrite elem_of_nil. tauto.
  - cbn [app dedup_by_doc] in *.
    destruct (bool_decide (row_doc r ∈ seen)); [by apply IH |].
    cbn [app]. f_equal. apply IH. intros d. rewrite Heq.
    cbn [fmap list_fmap]. rewrite !elem_of_cons. tauto.
Qed.

(** Every document of the list is already seen or survives. *)
Lemma dedup_by_doc_covers rs : ∀ seen r,
  r ∈ rs →
  row_doc r ∈ seen ∨ row_doc r ∈ (row_doc <$> dedup_by_doc seen rs).
Proof.
  induction rs as [| r0 rs IH]; intros seen r Hr.
  - by apply elem_of_nil in Hr.
  - cbn [dedup_by_doc].
    destruct (bool_decide (row_doc r0 ∈ seen)) eqn:Hseen.
    + apply elem_of_cons in Hr as [-> | Hr]; [| by apply IH].
      left. by apply bool_decide_eq_true in Hseen.
    + cbn [fmap list_fmap]. rewrite elem_of_cons.
      apply elem_of_cons in Hr as [-> | Hr]; [by right; left |].
      destruct (IH (row_doc r0 :: seen) r Hr) as [Hs | Hs]; [| by right; right].
      apply elem_of_cons in Hs as [-> | Hs]; [by right; left | by left].
Qed.

(** The survivors come from the list, in its order, and are new. *)
Lemma dedup_by_doc_sublist rs : ∀ seen, dedup_by_doc seen rs `sublist_of` rs.
Proof.
  induction rs as [| r rs IH]; intros seen; [constructor |].
  cbn [dedup_by_doc]. destruct (bool_decide _).
  - apply sublist_cons. apply IH.
  - apply sublist_skip. apply IH.
Qed.

Lemma dedup_by_doc_fresh rs : ∀ seen r,
  r ∈ dedup_by_doc seen rs → r ∈ rs ∧ row_doc r ∉ seen.
Proof.
  induction rs as [| r0 rs IH]; intros seen r Hr.
  - by apply elem_of_nil in Hr.
  - cbn [dedup_by_doc] in Hr.
    destruct (bool_decide (row_doc r0 ∈ seen)) eqn:Hseen.
    + destruct (IH _ _ Hr). split; [by right | done].
    + apply bool_decide_eq_false in Hseen.
      apply elem_of_cons in Hr as [-> | Hr]; [split; [by left | done] |].
      destruct (IH _ _ Hr) as [Hin Hnot]. split; [by right |].
      intros Hs. apply Hnot. by right.
Qed.

(** ** The merging loops of the hybrid search *)

Lemma documents_push acc d m x :
  documents (push acc d m x) = documents acc ++ [d].
Proof. reflexivity. Qed.

(** The first loop: every hit of [src] whose text is new is appended. *)
Lemma merge_loop_all src : ∀ rs pre combined seen,
  rows src = pre ++ rs → well_formed combined →
  (∀ d, d ∈ seen ↔ d ∈ documents combined) →
  ∃ out,
    merge_loop (fun _ => true) src (length pre) (row_doc <$> rs) combined
      = Ok out
    ∧ well_formed out
    ∧ rows out = rows combined ++ dedup_by_doc seen rs.
Proof.
  induction rs as [| [[d m] x] rs IH]; intros pre combined seen Hrows Hwf Hseen.
  - exists combined. cbn [dedup_by_doc]. by rewrite app_nil_r.
  - assert (Hi : rows src !! length pre = Some (d, m, x))
      by (rewrite Hrows; by apply list_lookup_middle).
    apply rows_lookup in Hi as (_ & Hm & Hx).
    assert (Hpre : S (length pre) = length (pre ++ [(d, m, x)]))
      by (rewrite length_app; simpl; lia).
    assert (Hrows' : rows src = (pre ++ [(d, m, x)]) ++ rs)
      by (by rewrite <- app_assoc).
    cbn [fmap list_fmap merge_loop dedup_by_doc].
    change (row_doc (d, m, x)) with d.
    rewrite <- (bool_decide_ext _ _ (Hseen d)), andb_true_r, Hpre.
    destruct (bool_decide (d ∈ seen)); cbn [negb].
    + by apply IH.
    + unfold py_index. rewrite Hm, Hx. cbn [mbind result_bind].
      destruct (IH (pre ++ [(d, m, x)]) (push combined d m x) (d :: seen)
                  Hrows' (well_formed_push _ _ _ _ Hwf))
        as (out & Hrun & Hwf' & Hout).
      { intros d'. rewrite documents_push, elem_of_cons, elem_of_app,
          list_elem_of_singleton, Hseen. tauto. }
      exists out. split; [exact Hrun |]. split; [exact Hwf' |].
      rewrite Hout, rows_push by done. by rewrite <- app_assoc.
Qed.

(** The second loop: new hits are appended while fewer than [n_results]
    documents are held. *)
Lemma merge_loop_room src n_results : ∀ rs pre combined seen,
  rows src = pre ++ rs → well_formed combined →
  (∀ d, d ∈ seen ↔ d ∈ documents combined) →
  ∃ out,
    merge_loop (has_room n_results) src (length pre) (row_doc <$> rs) combined
      = Ok out
    ∧ well_formed out
    ∧ rows out
      = rows combined
        ++ take (Z.to_nat n_results - length (documents combined))
             (dedup_by_doc seen rs).
Proof.
  induction rs as [| [[d m] x] rs IH]; intros pre combined seen Hrows Hwf Hseen.
  - exists combined. cbn [dedup_by_doc]. by rewrite take_nil, app_nil_r.
  - assert (Hi : rows src !! length pre = Some (d, m, x))
      by (rewrite Hrows; by apply list_lookup_middle).
    apply rows_lookup in Hi as (_ & Hm & Hx).
    assert (Hpre : S (length pre) = length (pre ++ [(d, m, x)]))
      by (rewrite length_app; simpl; lia).
    assert (Hrows' : rows src = (pre ++ [(d, m, x)]) ++ rs)
      by (by rewrite <- app_assoc).
    cbn [fmap list_fmap merge_loop dedup_by_doc].
    change (row_doc (d, m, x)) with d.
    rewrite <- (bool_decide_ext _ _ (Hseen d)), Hpre.
    destruct (bool_decide (d ∈ seen)); cbn [negb andb].
    { by apply IH. }
    unfold has_room at 1.
    destruct (Z.ltb_spec (Z.of_nat (length (documents combined))) n_results)
      as [Hroom | Hfull].
    + unfold py_index. rewrite Hm, Hx. cbn [mbind result_bind].
      destruct (IH (pre ++ [(d, m, x)]) (push combined d m x) (d :: seen)
                  Hrows' (well_formed_push _ _ _ _ Hwf))
        as (out & Hrun & Hwf' & Hout).
      { intros d'. rewrite documents_push, elem_of_cons, elem_of_app,
          list_elem_of_singleton, Hseen. tauto. }
      exists out. split; [exact Hrun |]. split; [exact Hwf' |].
      rewrite Hout, rows_push, documents_push, length_app by done.
      cbn [length].
      replace (Z.to_nat n_results - length (documents combined))
        with (S (Z.to_nat n_results - (length (documents combined) + 1)))
        by lia.
      by rewrite <- app_assoc.
    + destruct (IH (pre ++ [(d, m, x)]) combined seen Hrows' Hwf Hseen)
        as (out & Hrun & Hwf' & Hout).
      exists out. split; [exact Hrun |]. split; [exact Hwf' |].
      rewrite Hout.
      replace (Z.to_nat n_results - length (documents combined)) with 0
        by lia.
      reflexivity.
Qed.

Lemma rows_slice r n :
  well_formed r →
  well_formed {| documents := py_slice_to n (documents r);
                 metadatas := py_slice_to n (metadatas r);
                 distances := py_slice_to n (distances r) |}
  ∧ rows {| documents := py_slice_to n (documents r);
            metadatas := py_slice_to n (metadatas r);
            distances := py_slice_to n (distances r) |}
    = py_slice_to n (rows r).
Proof.
  intros Hwf. pose proof (length_rows r Hwf) as Hlen.
  destruct Hwf as [Hm Hd]. unfold py_slice_to, rows, well_formed in *.
  cbn [documents metadatas distances].
  rewrite Hlen, Hm, Hd.
  destruct (0 <=? n)%Z; rewrite !length_take, !zip_with_take; split; lia || done.
Qed.

Section Hybrid.
Variable collection_query : string → Z → result QueryResult.
Variables (query : string) (n_results : Z).

Local Abbreviation sem := (_semantic_search collection_query query n_results).
Local Abbreviation kw := (_keyword_search collection_query query n_results).
Local Abbreviation hyb := (_hybrid_search collection_query query n_results).
Local Abbreviation kept := (dedup_by_doc [] (rows sem)).

Hypothesis sem_wf : well_formed sem.
Hypothesis sem_bound : length (documents sem) ≤ Z.to_nat n_results.

Lemma kept_docs d : d ∈ documents sem ↔ d ∈ (row_doc <$> kept).
Proof.
  rewrite <- (documents_rows sem sem_wf). split.
  - intros (r & -> & Hr)%list_elem_of_fmap.
    destruct (dedup_by_doc_covers (rows sem) [] r Hr) as [H | H]; [| done].
    by apply elem_of_nil in H.
  - intros (r & -> & Hr)%list_elem_of_fmap.
    apply list_elem_of_fmap_2.
    by apply (dedup_by_doc_fresh (rows sem) []).
Qed.

Lemma length_kept : length kept ≤ Z.to_nat n_results.
Proof.
  pose proof (sublist_length _ _ (dedup_by_doc_sublist (rows sem) [])).
  rewrite (length_rows sem sem_wf) in *. lia.
Qed.

(** The hybrid result, hit by hit: the semantic hits with new text,
    then the keyword hits with new text while there is room. *)
Lemma hybrid_search_rows :
  well_formed hyb
  ∧ rows hyb
    = kept ++ take (Z.to_nat n_results - length kept)
                (dedup_by_doc (row_doc <$> kept) (rows kw)).
Proof.
  pose proof length_kept as Hk.
  destruct (merge_loop_all sem (rows sem) [] empty_result [] eq_refl
              well_formed_empty) as (out1 & Hrun1 & Hwf1 & Hout1).
  { done. }
  rewrite documents_rows in Hrun1 by done.
  change (length []) with 0 in Hrun1. rewrite rows_empty in Hout1.
  cbn [app] in Hout1.
  pose proof (keyword_search_wf collection_query query n_results) as Hkw.
  destruct (merge_loop_room kw n_results (rows kw) [] out1 (documents out1)
              eq_refl Hwf1) as (out2 & Hrun2 & Hwf2 & Hout2).
  { done. }
  rewrite documents_rows in Hrun2 by done.
  change (length []) with 0 in Hrun2.
  rewrite <- (length_rows out1 Hwf1), <- (documents_rows out1 Hwf1), Hout1
    in Hout2.
  unfold _hybrid_search. rewrite Hrun1.
  cbn [mbind result_bind]. rewrite Hrun2.
  cbn [mbind result_bind mret result_ret try_except].
  destruct (rows_slice out2 n_results Hwf2) as [Hwf Hrows].
  split; [exact Hwf |]. rewrite Hrows, Hout2. unfold py_slice_to.
  destruct (Z.leb_spec 0 n_results) as [Hpos | Hneg].
  - apply take_ge. rewrite length_app, length_take. lia.
  - replace (Z.to_nat n_results) with 0 in * by lia.
    destruct (dedup_by_doc [] (rows sem)); [| simpl in Hk; lia].
    cbn [app length]. change (0 - 0) with 0. by rewrite !take_0.
Qed.

End Hybrid.

(** C4.  Let the semantic search return parallel lists of at most
    [n_results] hits.  The hybrid result is then the first [n_results]
    hits of the semantic hits followed by the keyword hits, de-duplicated
    by exact document text.  It starts with the de-duplicated semantic
    hits, which keep their semantic order; what follows are keyword hits
    whose text no semantic hit has.  Every semantic document is in the
    hybrid result, the result has at most [n_results] documents, and a
    keyword document is left out only when [n_results] documents have
    been gathered. *)
Theorem hybrid_search_semantic_first
    (collection_query : string → Z → result QueryResult)
    (query : string) (n_results : Z) :
  let sem := _semantic_search collection_query query n_results in
  let kw := _keyword_search collection_query query n_results in
  let hyb := _hybrid_search collection_query query n_results in
  well_formed sem →
  length (documents sem) ≤ Z.to_nat n_results →
  rows hyb
    = take (Z.to_nat n_results) (dedup_by_doc [] (rows sem ++ rows kw))
  ∧ (∃ extra,
       rows hyb = dedup_by_doc [] (rows sem) ++ extra
       ∧ ∀ r, r ∈ extra → r ∈ rows kw ∧ row_doc r ∉ documents sem)
  ∧ dedup_by_doc [] (rows sem) `sublist_of` rows sem
  ∧ (∀ d, d ∈ documents sem → d ∈ documents hyb)
  ∧ length (documents hyb) ≤ Z.to_nat n_results
  ∧ (∀ d, d ∈ documents kw → d ∉ documents hyb →
          length (documents hyb) = Z.to_nat n_results).
Proof.
  intros sem kw hyb Hwf Hbound.
  destruct (hybrid_search_rows collection_query query n_results Hwf Hbound)
    as [Hhwf Hrows].
  fold sem kw hyb in Hhwf, Hrows.
  pose proof (length_kept collection_query query n_results Hwf Hbound) as Hk.
  fold sem in Hk.
  pose proof (kept_docs collection_query query n_results Hwf) as Hdocs.
  fold sem in Hdocs.
  set (kept := dedup_by_doc [] (rows sem)) in *.
  set (fill := dedup_by_doc (row_doc <$> kept) (rows kw)) in *.
  assert (Hall : dedup_by_doc [] (rows sem ++ rows kw) = kept ++ fill).
  { apply dedup_by_doc_app. intros d. rewrite elem_of_nil. tauto. }
  assert (Hfirst : rows hyb
            = take (Z.to_nat n_results) (dedup_by_doc [] (rows sem ++ rows kw))).
  { rewrite Hall, take_app, (take_ge kept) by done. exact Hrows. }
  assert (Hhdocs : documents hyb = row_doc <$> rows hyb)
    by (by rewrite documents_rows).
  split; [exact Hfirst |]. split.
  { exists (take (Z.to_nat n_results - length kept) fill).
    split; [exact Hrows |]. intros r Hr%subseteq_take.
    apply dedup_by_doc_fresh in Hr as [Hin Hnew]. split; [done |].
    by rewrite Hdocs. }
  split; [apply dedup_by_doc_sublist |]. split.
  { intros d Hd. rewrite Hhdocs, Hrows, fmap_app, elem_of_app. left.
    by apply Hdocs. }
  split.
  { rewrite Hhdocs, length_fmap, Hfirst, length_take. lia. }
  intros d Hd Hout.
  rewrite Hhdocs, length_fmap, Hfirst, length_take.
  destruct (le_lt_dec (length (dedup_by_doc [] (rows sem ++ rows kw)))
              (Z.to_nat n_results)) as [Hall_in | Hcut]; [| lia].
  exfalso. apply Hout.
  rewrite Hhdocs, Hfirst, take_ge by done.
  rewrite <- (documents_rows kw) in Hd
    by apply keyword_search_wf.
  apply list_elem_of_fmap in Hd as (r & -> & Hr).
  destruct (dedup_by_doc_covers (rows sem ++ rows kw) [] r) as [H | H];
    [apply elem_of_app; by right | by apply elem_of_nil in H | done].
Qed.

Lemma hybrid_search_semantic_first_witness :
  length (documents (_semantic_search (ranked_collection five_chunks) "startup" 3))
    ≤ Z.to_nat 3
  ∧ length (documents (_hybrid_search (ranked_collection five_chunks) "startup" 3))
    ≤ Z.to_nat 3.
Proof.
  assert (Hwf : well_formed
                  (_semantic_search (ranked_collection five_chunks) "startup" 3))
    by (split; reflexivity).
  assert (Hbound :
            length (documents
                      (_semantic_search (ranked_collection five_chunks) "startup" 3))
            ≤ Z.to_nat 3) by (vm_compute; lia).
  split; [exact Hbound |].
  exact (proj1 (proj2 (proj2 (proj2 (proj2
           (hybrid_search_semantic_first (ranked_collection five_chunks)
              "startup" 3 Hwf Hbound)))))).
Defined.

End SearchFacts.

(** * Backend errors *)

Module BackendErrorFacts.
Import TextIndexer SearchSpec SearchFacts.

(** C6, amended.  No strategy propagates an error of the collection:
    [search_similar_content] is a total function of its arguments.  If
    every request the strategy issues to the collection raises or is
    answered with the empty lists (an empty index), the search returns
    the empty result.  The hybrid strategy issues two requests.  When
    its semantic request raises, it returns the keyword hits, one per
    distinct document text (the first), at most [n_results] of them.
    When its keyword request raises and the semantic hits are parallel
    lists of at most [n_results] entries, it returns the semantic hits,
    one per distinct document text. *)
Theorem search_backend_error_is_contained
    (collection_query : string → Z → result QueryResult)
    (query : string) (n_results : Z) (search_strategy : string) :
  let found :=
    search_similar_content collection_query query n_results search_strategy in
  let sem := _semantic_search collection_query query n_results in
  let kw := _keyword_search collection_query query n_results in
  ((∀ k, k ∈ calls_issued search_strategy n_results →
         collection_query query k = Ok empty_result
         ∨ ∃ e, collection_query query k = Raise e) →
   found = empty_result)
  ∧ (search_strategy = "hybrid" →
     (∃ e, collection_query query n_results = Raise e) →
     well_formed found
     ∧ rows found = take (Z.to_nat n_results) (dedup_by_doc [] (rows kw)))
  ∧ (search_strategy = "hybrid" →
     (∃ e, collection_query query (n_results * 2)%Z = Raise e) →
     well_formed sem → length (documents sem) ≤ Z.to_nat n_results →
     well_formed found ∧ rows found = dedup_by_doc [] (rows sem)).
Proof.
  cbv zeta. split; [| split].
  - unfold calls_issued, search_similar_content. intros H.
    destruct (String.eqb search_strategy "semantic") eqn:Hsem.
    { apply String.eqb_eq in Hsem as ->. cbn [try_except].
      apply semantic_search_empty, H. by left. }
    destruct (String.eqb search_strategy "keyword").
    { cbn [try_except]. apply keyword_search_empty, H. by left. }
    destruct (String.eqb search_strategy "hybrid"); cbn [try_except].
    + apply hybrid_search_empty.
      * apply semantic_search_empty, H. by left.
      * apply keyword_search_empty, H. right; by left.
    + apply semantic_search_empty, H. by left.
  - intros -> Hsem.
    assert (Hempty : _semantic_search collection_query query n_results
                     = empty_result)
      by (apply semantic_search_empty; by right).
    assert (Hwf : well_formed (_semantic_search collection_query query n_results))
      by (rewrite Hempty; apply well_formed_empty).
    assert (Hlen : length (documents
                     (_semantic_search collection_query query n_results))
                   ≤ Z.to_nat n_results)
      by (rewrite Hempty; simpl; lia).
    destruct (hybrid_search_rows collection_query query n_results Hwf Hlen)
      as [Hhwf Hrows].
    unfold search_similar_content. cbn [String.eqb Ascii.eqb Bool.eqb try_except].
    split; [exact Hhwf |]. rewrite Hrows, Hempty, rows_empty.
    cbn [dedup_by_doc app fmap list_fmap length]. by rewrite Nat.sub_0_r.
  - intros -> Hkw Hwf Hlen.
    assert (Hempty : _keyword_search collection_query query n_results
                     = empty_result)
      by (apply keyword_search_empty; by right).
    destruct (hybrid_search_rows collection_query query n_results Hwf Hlen)
      as [Hhwf Hrows].
    unfold search_similar_content. cbn [String.eqb Ascii.eqb Bool.eqb try_except].
    split; [exact Hhwf |]. rewrite Hrows, Hempty, rows_empty.
    cbn [dedup_by_doc]. by rewrite take_nil, app_nil_r.
Qed.

Lemma search_backend_error_is_contained_witness :
  search_similar_content failing_collection "startup" 5 "hybrid"
  = empty_result.
Proof.
  apply (search_backend_error_is_contained failing_collection "startup" 5
           "hybrid").
  intros k _. right. exists "connection refused". reflexivity.
Defined.

End BackendErrorFacts.

(** * Properties of the timestamp formatter *)

Module TimestampFacts.
Import Timestamp TimestampSpec.

Lemma two_digits_upto_spec bound : two_digits_upto bound = true →
  ∀ k, k < bound → fmt_02d (Z.of_nat k) = two_digits (Z.of_nat k).
Proof.
  induction bound as [| b IH]; intros H k Hk; [lia |].
  cbn [two_digits_upto] in H. apply andb_prop in H as [Hb H].
  destruct (decide (k = b)) as [-> | Hne].
  - by apply String.eqb_eq.
  - apply IH; [done | lia].
Qed.

Lemma fmt_02d_two_digits (n : Z) :
  (0 <= n < 100)%Z → fmt_02d n = two_digits n.
Proof.
  intros Hn. rewrite <- (Z2Nat.id n) by lia.
  apply (two_digits_upto_spec 100); [by vm_compute | lia].
Qed.

(** ** Floats *)

Lemma Qfloor_unique (x : Q) (k : Z) :
  (inject_Z k <= x)%Q → (x < inject_Z (k + 1))%Q → Qfloor x = k.
Proof.
  intros Hle Hlt.
  pose proof (Qfloor_resp_le _ _ Hle) as H1. rewrite Qfloor_Z in H1.
  pose proof (Qfloor_le x) as H2.
  assert (H3 : (inject_Z (Qfloor x) < inject_Z (k + 1))%Q) by lra.
  rewrite <- Zlt_Qlt in H3. lia.
Qed.

Lemma truncate_nonneg (q : Q) : (0 <= q)%Q → truncate q = Qfloor q.
Proof. intros H. unfold truncate. apply Qle_bool_iff in H. by rewrite H. Qed.

(** Minutes and seconds of a number of seconds are those of its integer
    part. *)
Lemma minutes_seconds (q : Q) :
  Qfloor (q / 60) = (Qfloor q / 60)%Z
  ∧ Qfloor (q - 60 * inject_Z (Qfloor (q / 60))) = (Qfloor q mod 60)%Z
  ∧ (0 <= q - 60 * inject_Z (Qfloor (q / 60)))%Q.
Proof.
  set (M := Qfloor (q / 60)). set (z := Qfloor q).
  assert (HM1 : (inject_Z M <= q / 60)%Q) by apply Qfloor_le.
  assert (HM2 : (q / 60 < inject_Z (M + 1))%Q) by apply Qlt_floor.
  assert (Hz1 : (inject_Z z <= q)%Q) by apply Qfloor_le.
  assert (Hz2 : (q < inject_Z (z + 1))%Q) by apply Qlt_floor.
  rewrite inject_Z_plus in HM2, Hz2.
  assert (Hq : (q == 60 * (q / 60))%Q) by (field).
  assert (Hlow : (inject_Z (60 * M) <= q)%Q).
  { rewrite inject_Z_mult. change (inject_Z 60) with 60%Q. lra. }
  assert (Hhigh : (q < inject_Z (60 * M + 60))%Q).
  { rewrite inject_Z_plus, inject_Z_mult.
    change (inject_Z 60) with 60%Q. change (inject_Z 1) with 1%Q in HM2. lra. }
  assert (H1 : (60 * M <= z)%Z).
  { pose proof (Qfloor_resp_le _ _ Hlow) as H. by rewrite Qfloor_Z in H. }
  assert (H2 : (z < 60 * M + 60)%Z).
  { rewrite Zlt_Qlt. lra. }
  assert (Hdiv : M = (z / 60)%Z).
  { apply (Z.div_unique z 60 M (z - 60 * M)); lia. }
  assert (Hmod : (z mod 60 = z - 60 * M)%Z).
  { symmetry. apply (Z.mod_unique z 60 M (z - 60 * M)); lia. }
  split; [exact Hdiv |]. rewrite Hmod. split.
  - apply Qfloor_unique.
    + unfold Z.sub. rewrite inject_Z_plus, inject_Z_opp, inject_Z_mult.
      change (inject_Z 60) with 60%Q. lra.
    + unfold Z.sub. rewrite !inject_Z_plus, inject_Z_opp, inject_Z_mult.
      change (inject_Z 60) with 60%Q. change (inject_Z 1) with 1%Q in *. lra.
  - rewrite inject_Z_mult in Hlow. change (inject_Z 60) with 60%Q in Hlow. lra.
Qed.

(** Below [2^53] seconds the float operations of the formatter are
    exact on a non-negative float: the quotient is the floor of
    [q / 60] and the remainder is [q - 60 * floor (q / 60)]. *)
Lemma float_divmod60_exact (q : Q) :
  (0 <= q)%Q → (q < inject_Z (2 ^ 53))%Q →
  float_floordiv60 q = inject_Z (Qfloor (q / 60))
  ∧ truncate (float_mod60 q)
    = Qfloor (q - 60 * inject_Z (Qfloor (q / 60))).
Proof.
  intros Hq0 Hq1.
  destruct (minutes_seconds q) as (_ & _ & Hrem).
  set (M := Qfloor (q / 60)) in *.
  assert (Hdiv0 : (0 <= q / 60)%Q).
  { apply Qle_shift_div_l; lra. }
  assert (HM0 : (0 <= M)%Z).
  { exact (Qfloor_resp_le 0 (q / 60) Hdiv0). }
  assert (HM60 : (60 * M < 2 ^ 53)%Z).
  { rewrite Zlt_Qlt. rewrite inject_Z_mult. change (inject_Z 60) with 60%Q. lra. }
  assert (Hfmod : fmod60 q = (q - 60 * inject_Z M)%Q).
  { unfold fmod60. by rewrite truncate_nonneg. }
  assert (Hpos : Qle_bool 0 (q - 60 * inject_Z M) = true)
    by (by apply Qle_bool_iff).
  clearbody M. split.
  - unfold float_floordiv60. rewrite Hfmod, Hpos. unfold Float64.sub, Float64.div.
    assert (Hsub : Float64.round64 (q - (q - 60 * inject_Z M))
                   = inject_Z (60 * M)).
    { apply Float64Facts.round64_integer; [| lia].
      rewrite inject_Z_mult. change (inject_Z 60) with 60%Q. ring. }
    assert (Hquot : Float64.round64 (inject_Z (60 * M) / 60) = inject_Z M).
    { apply Float64Facts.round64_integer; [| lia].
      rewrite inject_Z_mult. change (inject_Z 60) with 60%Q. field. }
    rewrite Hsub, Hquot.
    destruct (Qeq_bool (inject_Z M) 0) eqn:H0.
    + apply Qeq_bool_iff in H0. unfold Qeq in H0. cbn in H0.
      replace M with 0%Z by lia. reflexivity.
    + rewrite Qfloor_Z.
      rewrite (Float64Facts.round64_integer _ 0); [done | | done].
      change (inject_Z 0) with 0%Q. ring.
  - unfold float_mod60. rewrite Hfmod, Hpos.
    destruct (Qeq_bool (q - 60 * inject_Z M) 0) eqn:H0.
    + apply Qeq_bool_iff in H0. rewrite (Qfloor_comp _ _ H0). reflexivity.
    + by apply truncate_nonneg.
Qed.

(** C8, as stated, fails at [-1]: a negative number is not malformed
    input, no exception is raised and the handler returning "00:00" is
    not reached.  Floor division and modulo give minus one minute and
    59 seconds. *)
Lemma negative_timestamp_is_formatted :
  _format_timestamp (PyInt (-1)) = "-1:59"
  ∧ _format_timestamp (PyInt (-1)) ≠ "00:00"
  ∧ format_time (PyInt (-1)) ≠ "00:00".
Proof. repeat split; by vm_compute. Qed.

(** What both formatters return on a float below [2^53] seconds. *)
Lemma format_float (q : Q) :
  (0 <= q)%Q → (q < inject_Z (2 ^ 53))%Q →
  _format_timestamp (PyFloat q)
  = fmt_02d (Qfloor (q / 60)) +:+ ":"
    +:+ fmt_02d (Qfloor (q - 60 * inject_Z (Qfloor (q / 60)))).
Proof.
  intros Hq0 Hq1. destruct (float_divmod60_exact q Hq0 Hq1) as [Hd Hm].
  unfold _format_timestamp.
  cbn [floordiv60 mod60 mbind result_bind mret result_ret try_except py_int].
  rewrite Hd, Hm. unfold truncate.
  destruct (Qle_bool 0 (inject_Z (Qfloor (q / 60)))).
  - by rewrite Qfloor_Z.
  - by rewrite Qceiling_Z.
Qed.

(** C8, amended.  On an integer number of seconds, and on a float
    number of seconds from 0 up to [2^53], both formatters return the
    floor of [seconds / 60] and the floor of [seconds % 60], each
    formatted with [:02d] and joined by a colon; below one hundred
    minutes this is exactly two digits, a colon and two digits, so 125
    gives "02:05"; a string or [None] gives "00:00"; a negative number
    is formatted like any other, from the floor quotient and the
    remainder the interpreter computes: [-1] gives "-1:59", and the
    float [-2^-70], whose remainder rounds to 60, gives "-1:60". *)
Theorem format_timestamp_spec :
  (∀ z : Z, _format_timestamp (PyInt z)
            = fmt_02d (z / 60) +:+ ":" +:+ fmt_02d (z mod 60))
  ∧ (∀ q : Q, (0 <= q)%Q → (q < inject_Z (2 ^ 53))%Q →
       _format_timestamp (PyFloat q)
       = fmt_02d (Qfloor (q / 60)) +:+ ":"
         +:+ fmt_02d (Qfloor (q - 60 * inject_Z (Qfloor (q / 60)))))
  ∧ (∀ z : Z, (0 <= z < 6000)%Z →
       _format_timestamp (PyInt z)
       = two_digits (z / 60) +:+ ":" +:+ two_digits (z mod 60))
  ∧ (∀ q : Q, (0 <= q)%Q → (q < 6000)%Q →
       _format_timestamp (PyFloat q)
       = two_digits (Qfloor q / 60) +:+ ":" +:+ two_digits (Qfloor q mod 60))
  ∧ _format_timestamp (PyInt 125) = "02:05"
  ∧ _format_timestamp (PyFloat 125) = "02:05"
  ∧ (∀ s : string, _format_timestamp (PyStr s) = "00:00")
  ∧ _format_timestamp PyNone = "00:00"
  ∧ _format_timestamp (PyInt (-1)) = "-1:59"
  ∧ _format_timestamp (PyFloat (-1)) = "-1:59"
  ∧ _format_timestamp (PyFloat (- Float64.pow2 (-70))) = "-1:60"
  ∧ (∀ v : PyVal, format_time v = _format_timestamp v).
Proof.
  split; [done |]. split; [exact format_float |]. split.
  { intros z Hz. unfold _format_timestamp.
    cbn [floordiv60 mod60 mbind result_bind mret result_ret try_except py_int].
    rewrite !fmt_02d_two_digits; [done | |].
    - pose proof (Z.mod_pos_bound z 60). lia.
    - split; [apply Z.div_pos; lia | apply Z.div_lt_upper_bound; lia]. }
  split.
  { intros q Hq0 Hq1. rewrite format_float; [| done |].
    2:{ eapply Qlt_trans; [exact Hq1 |]. by vm_compute. }
    destruct (minutes_seconds q) as (-> & -> & _).
    assert (Hz : (0 <= Qfloor q < 6000)%Z).
    { split.
      - exact (Qfloor_resp_le 0 q Hq0).
      - rewrite Zlt_Qlt. pose proof (Qfloor_le q).
        change (inject_Z 6000) with 6000%Q. lra. }
    rewrite !fmt_02d_two_digits; [done | |].
    - pose proof (Z.mod_pos_bound (Qfloor q) 60). lia.
    - split; [apply Z.div_pos; lia | apply Z.div_lt_upper_bound; lia]. }
  repeat split; by vm_compute.
Qed.

Lemma format_timestamp_spec_witness :
  (0 <= 125 < 6000)%Z
  ∧ _format_timestamp (PyInt 125)
    = two_digits (125 / 60) +:+ ":" +:+ two_digits (125 mod 60).
Proof.
  assert (H : (0 <= 125 < 6000)%Z) by lia.
  split; [exact H |].
  exact (proj1 (proj2 (proj2 format_timestamp_spec)) 125%Z H).
Defined.

End TimestampFacts.

(** * Properties of the RAG engine *)

Module EngineFacts.
Import TextIndexer SearchSpec RAGEngine.

(** C9.  Whatever the collection and the generation backends do,
    [query_podcasts] returns an answer whose sources are the result of
    the retrieval and whose result count is the number of retrieved
    documents.  For a backend id other than gemini and openai the
    response names the id in the unknown-model message, and no
    generation backend is consulted. *)
Theorem query_podcasts_unknown_model
    (gemini_key openai_key : option string) (default_model : string)
    (gemini_generate_content openai_chat_completion : string → result string)
    (collection_query : string → Z → result QueryResult)
    (query : string) (n_results : Z) (search_strategy id : string) :
  id ≠ "gemini" → id ≠ "openai" →
  let ask := query_podcasts gemini_key openai_key default_model
               gemini_generate_content openai_chat_completion
               collection_query query n_results search_strategy in
  let retrieved :=
    search_similar_content collection_query query n_results search_strategy in
  response (ask (Some id))
    = "Error: Unknown model '" +:+ id +:+ "'. Available models: gemini, openai"
  ∧ sources (ask (Some id)) = retrieved
  ∧ results_count (search_info (ask (Some id))) = length (documents retrieved)
  ∧ model (search_info (ask (Some id))) = id
  ∧ (∀ model0, sources (ask model0) = retrieved
               ∧ results_count (search_info (ask model0))
                 = length (documents retrieved)).
Proof.
  intros Hg Ho ask retrieved. unfold ask, query_podcasts.
  cbn [try_except response sources search_info results_count model].
  apply String.eqb_neq in Hg, Ho. rewrite Hg, Ho. repeat split; done.
Qed.

Lemma query_podcasts_unknown_model_witness :
  response (query_podcasts None None "gemini"
              (fun _ => Raise "offline") (fun _ => Raise "offline")
              (ranked_collection five_chunks) "startup" 3 "semantic"
              (Some "llama"))
  = "Error: Unknown model 'llama'. Available models: gemini, openai".
Proof.
  assert (Hg : "llama" ≠ "gemini") by discriminate.
  assert (Ho : "llama" ≠ "openai") by discriminate.
  exact (proj1 (query_podcasts_unknown_model None None "gemini"
                  (fun _ => Raise "offline") (fun _ => Raise "offline")
                  (ranked_collection five_chunks) "startup" 3 "semantic"
                  "llama" Hg Ho)).
Defined.

End EngineFacts.

(** * Substrings and white space *)

Module StringFacts.
Import ChunkerShape.

Lemma append_cons (x : Ascii.ascii) (a b : string) :
  String x a +:+ b = String x (a +:+ b).
Proof. reflexivity. Qed.

Lemma append_assoc (a b c : string) : (a +:+ b) +:+ c = a +:+ (b +:+ c).
Proof.
  induction a as [| x a IH]; [done |]. rewrite !append_cons. by rewrite IH.
Qed.

Lemma append_nil_l (a : string) : "" +:+ a = a.
Proof. reflexivity. Qed.

Lemma prefixb_app (t s : string) : PyStr.prefixb t (t +:+ s) = true.
Proof.
  induction t as [| x t IH]; [done |]. rewrite append_cons.
  cbn [PyStr.prefixb]. by rewrite Ascii.eqb_refl, IH.
Qed.

Lemma prefixb_inv (t : string) : ∀ s,
  PyStr.prefixb t s = true → ∃ q, s = t +:+ q.
Proof.
  induction t as [| x t IH]; intros s H; [by exists s |].
  destruct s as [| y s]; [done |]. cbn [PyStr.prefixb] in H.
  apply andb_prop in H as [Hxy H]. apply Ascii.eqb_eq in Hxy as ->.
  destruct (IH s H) as [q ->]. by exists q.
Qed.

Lemma contains_unfold (s t : string) :
  PyStr.contains s t
  = PyStr.prefixb t s
    || match s with EmptyString => false | String _ s' => PyStr.contains s' t end.
Proof. by destruct s. Qed.

(** [t in s] holds exactly when [s] is some text, [t], some text. *)
Lemma contains_iff (s t : string) :
  PyStr.contains s t = true ↔ ∃ p q, s = p +:+ t +:+ q.
Proof.
  split.
  - induction s as [| x s IH]; rewrite contains_unfold; intros H.
    + apply orb_prop in H as [H | H]; [| done].
      apply prefixb_inv in H as [q ->]. by exists "", q.
    + apply orb_prop in H as [H | H].
      * apply prefixb_inv in H as [q ->]. by exists "", q.
      * destruct (IH H) as (p & q & ->). by exists (String x p), q.
  - intros (p & q & ->). induction p as [| x p IH]; rewrite contains_unfold.
    + by rewrite append_nil_l, prefixb_app.
    + rewrite append_cons, IH. apply orb_true_r.
Qed.

Lemma contains_refl (s : string) : PyStr.contains s s = true.
Proof.
  apply contains_iff. exists "", "". by rewrite append_nil_l, SearchFacts.append_empty_r.
Qed.

Lemma contains_app_l (s q t : string) :
  PyStr.contains s t = true → PyStr.contains (s +:+ q) t = true.
Proof.
  rewrite !contains_iff. intros (p & r & ->). exists p, (r +:+ q).
  by rewrite !append_assoc.
Qed.

Lemma contains_app_r (p s t : string) :
  PyStr.contains s t = true → PyStr.contains (p +:+ s) t = true.
Proof.
  rewrite !contains_iff. intros (p' & r & ->). exists (p +:+ p'), r.
  by rewrite !append_assoc.
Qed.

Lemma contains_trans (s t u : string) :
  PyStr.contains s t = true → PyStr.contains t u = true →
  PyStr.contains s u = true.
Proof.
  rewrite !contains_iff. intros (p & q & ->) (p' & q' & ->).
  exists (p +:+ p'), (q' +:+ q). by rewrite !append_assoc.
Qed.

Lemma has_visible_app (a b : string) :
  has_visible (a +:+ b) = has_visible a || has_visible b.
Proof.
  induction a as [| x a IH]; [done |]. rewrite append_cons.
  cbn [has_visible]. by rewrite IH, orb_assoc.
Qed.

Lemma has_visible_contains (s t : string) :
  PyStr.contains s t = true → has_visible t = true → has_visible s = true.
Proof.
  intros (p & q & ->)%contains_iff Ht. rewrite !has_visible_app, Ht.
  by rewrite orb_true_r.
Qed.

Lemma truthy_lstrip (s : string) :
  PyStr.truthy (PyStr.lstrip s) = has_visible s.
Proof.
  induction s as [| x s IH]; [done |]. cbn [PyStr.lstrip has_visible].
  by destruct (PyStr.is_space x).
Qed.

Lemma has_visible_lstrip (s : string) :
  has_visible (PyStr.lstrip s) = has_visible s.
Proof.
  induction s as [| x s IH]; [done |]. cbn [PyStr.lstrip].
  destruct (PyStr.is_space x) eqn:E; cbn [has_visible]; by rewrite ?E.
Qed.

Lemma has_visible_rev_onto (s : string) : ∀ acc,
  has_visible (PyStr.rev_onto s acc) = has_visible s || has_visible acc.
Proof.
  induction s as [| x s IH]; intros acc; [done |].
  cbn [PyStr.rev_onto has_visible]. rewrite IH. cbn [has_visible].
  destruct (PyStr.is_space x), (has_visible s), (has_visible acc); done.
Qed.

Lemma has_visible_rev (s : string) : has_visible (PyStr.rev s) = has_visible s.
Proof. unfold PyStr.rev. rewrite has_visible_rev_onto. apply orb_false_r. Qed.

Lemma truthy_rev_onto (s : string) : ∀ acc,
  PyStr.truthy (PyStr.rev_onto s acc) = PyStr.truthy s || PyStr.truthy acc.
Proof.
  induction s as [| x s IH]; intros acc; [done |].
  cbn [PyStr.rev_onto]. rewrite IH. cbn [PyStr.truthy]. apply orb_true_r.
Qed.

Lemma truthy_rev (s : string) : PyStr.truthy (PyStr.rev s) = PyStr.truthy s.
Proof. unfold PyStr.rev. rewrite truthy_rev_onto. apply orb_false_r. Qed.

(** [s.strip()] is non-empty exactly when [s] has a visible character. *)
Lemma truthy_strip (s : string) :
  PyStr.truthy (PyStr.strip s) = has_visible s.
Proof.
  unfold PyStr.strip.
  by rewrite truthy_rev, truthy_lstrip, has_visible_rev, has_visible_lstrip.
Qed.

End StringFacts.

(** * Keyword search: terms and filter *)

Module KeywordSearchFacts.
Import TextIndexer SearchSpec SearchFacts StringFacts.

(** ** [split] gives the white-space separated terms *)

Lemma rev_onto_app (s : string) : ∀ acc,
  PyStr.rev_onto s acc = PyStr.rev s +:+ acc.
Proof.
  induction s as [| c s IH]; intros acc; [done |].
  unfold PyStr.rev. cbn [PyStr.rev_onto].
  rewrite (IH (String c acc)), (IH (String c "")).
  by rewrite append_assoc.
Qed.

Lemma no_space_rev_onto (s : string) : ∀ acc,
  no_space s = true → no_space acc = true →
  no_space (PyStr.rev_onto s acc) = true.
Proof.
  induction s as [| c s IH]; intros acc Hs Hacc; [done |].
  cbn [no_space] in Hs. apply andb_prop in Hs as [Hc Hs].
  cbn [PyStr.rev_onto]. apply IH; [done |]. cbn [no_space].
  by rewrite Hc, Hacc.
Qed.

Lemma rev_not_empty (c : Ascii.ascii) (s : string) :
  PyStr.rev (String c s) ≠ "".
Proof. unfold PyStr.rev. cbn [PyStr.rev_onto]. apply rev_onto_cons_ne. Qed.

(** Reading a term: its characters are pushed on the run being read. *)
Lemma split_go_word (w rest : string) : ∀ cur,
  no_space w = true →
  PyStr.split_go (w +:+ rest) cur
  = PyStr.split_go rest (PyStr.rev_onto w cur).
Proof.
  induction w as [| c w IH]; intros cur Hw; [done |].
  cbn [no_space] in Hw. apply andb_prop in Hw as [Hc Hw].
  rewrite append_cons. cbn [PyStr.split_go PyStr.rev_onto].
  destruct (PyStr.is_space c); [done |]. by apply IH.
Qed.

Lemma split_go_words (s : string) :
  words_of s (PyStr.split_go s "")
  ∧ ∀ c cur, no_space (String c cur) = true →
      words_of (PyStr.rev (String c cur) +:+ s)
        (PyStr.split_go s (String c cur)).
Proof.
  induction s as [| a s [IH0 IH]].
  - split; [constructor |]. intros c cur Hcur. cbn [PyStr.split_go].
    rewrite append_empty_r. apply words_last; [apply rev_not_empty |].
    by apply no_space_rev_onto.
  - split.
    + cbn [PyStr.split_go]. destruct (PyStr.is_space a) eqn:Ha.
      * by apply words_skip.
      * apply (IH a ""). cbn [no_space]. by rewrite Ha.
    + intros c cur Hcur. cbn [PyStr.split_go].
      destruct (PyStr.is_space a) eqn:Ha.
      * apply words_next; [apply rev_not_empty | | done | done].
        by apply no_space_rev_onto.
      * replace (PyStr.rev (String c cur) +:+ String a s)
          with (PyStr.rev (String a (String c cur)) +:+ s).
        { apply IH. cbn [no_space] in *. by rewrite Ha, Hcur. }
        unfold PyStr.rev. cbn [PyStr.rev_onto].
        rewrite (rev_onto_app cur (String c "")),
          (rev_onto_app cur (String c (String a ""))).
        rewrite !append_assoc. f_equal.
Qed.

(** [s.split()] is the list of the white-space separated terms of [s],
    and the only one. *)
Lemma split_words (s : string) (ws : list string) :
  words_of s ws ↔ ws = PyStr.split s.
Proof.
  split.
  - induction 1 as [| c s ws Hc _ IH | w Hne Hw | w c s ws Hne Hw Hc _ IH].
    + reflexivity.
    + unfold PyStr.split. cbn [PyStr.split_go]. by rewrite Hc.
    + symmetry. by apply split_word.
    + unfold PyStr.split. rewrite split_go_word by done.
      cbn [PyStr.split_go]. rewrite Hc.
      change (PyStr.rev_onto w "") with (PyStr.rev w).
      destruct (PyStr.rev w) eqn:Hr.
      * destruct w; [done |]. by apply rev_not_empty in Hr.
      * rewrite <- Hr, rev_rev. by rewrite IH.
  - intros ->. apply split_go_words.
Qed.

(** ** The filter *)




End KeywordSearchFacts.

(** * Further properties of the temporal chunker *)

Module ChunkerShapeFacts.
Import AudioProcessor Examples ChunkerSpec ChunkerShape StringFacts.

(** ** An induction principle for the loop *)

Section LoopInvariant.
Variable speakers : option (gmap nat string).
Variable chunk_duration : Q.
Variable segs : list Segment.
Variable I : list Segment → Chunk → Prop.
Variable C : Chunk → Prop.

Hypothesis close_ok : ∀ done s rest cur,
  segs = done ++ s :: rest → I done cur →
  C (absorb cur (speaker_of speakers (length done)) s).
Hypothesis reopen_ok : ∀ done s rest cur,
  segs = done ++ s :: rest → I done cur →
  I (done ++ [s]) (reopen (speaker_of speakers (length done)) s).
Hypothesis keep_ok : ∀ done s rest cur,
  segs = done ++ s :: rest → I done cur →
  Qle_bool chunk_duration
    (span (absorb cur (speaker_of speakers (length done)) s)) = false →
  I (done ++ [s]) (absorb cur (speaker_of speakers (length done)) s).

Lemma chunk_loop_invariant : ∀ rest done chunks cur,
  segs = done ++ rest → I done cur → Forall C chunks →
  I segs (snd (chunk_loop speakers chunk_duration (length done) rest (chunks, cur)))
  ∧ Forall C
      (fst (chunk_loop speakers chunk_duration (length done) rest (chunks, cur))).
Proof.
  induction rest as [| s rest IH]; intros done chunks cur Hsegs Hacc Hchunks.
  - rewrite app_nil_r in Hsegs. subst. auto.
  - cbn [chunk_loop].
    replace (S (length done)) with (length (done ++ [s]))
      by (rewrite length_app; simpl; lia).
    assert (Hsegs' : segs = (done ++ [s]) ++ rest) by (by rewrite <- app_assoc).
    unfold chunk_step.
    destruct (negb _ && _).
    { apply IH; [done | by eapply reopen_ok |].
      apply Forall_app. split; [done |]. constructor; [| done].
      by eapply close_ok. }
    destruct (Qle_bool _ _) eqn:Hd.
    { apply IH; [done | by eapply reopen_ok |].
      apply Forall_app. split; [done |]. constructor; [| done].
      by eapply close_ok. }
    apply IH; [done | by eapply keep_ok | done].
Qed.

End LoopInvariant.

(** ** Where a chunk starts and ends *)

Lemma opened_close speakers segs done s rest cur :
  segs = done ++ s :: rest → opened_at speakers segs done cur →
  spans_segments speakers segs (absorb cur (speaker_of speakers (length done)) s).
Proof.
  intros Hsegs [[-> ->] | (j & sj & pre & p & -> & Hj & Hsj & Ha & He & Hsp)].
  - exists 0, 0, s, s. subst segs. repeat split; done.
  - exists j, (length (pre ++ [p])), sj, s. unfold absorb. rewrite Ha.
    cbn [fst snd start_time end_time speaker].
    repeat split; try done.
    + rewrite length_app. simpl. lia.
    + subst segs. by apply list_lookup_middle.
Qed.

Lemma opened_reopen speakers segs done s rest cur :
  segs = done ++ s :: rest → opened_at speakers segs done cur →
  opened_at speakers segs (done ++ [s])
    (reopen (speaker_of speakers (length done)) s).
Proof.
  intros Hsegs _. right. exists (length done), s, done, s.
  repeat split; try done. subst segs. by apply list_lookup_middle.
Qed.

Lemma opened_keep speakers segs done s rest cur :
  segs = done ++ s :: rest → opened_at speakers segs done cur →
  opened_at speakers segs (done ++ [s])
    (absorb cur (speaker_of speakers (length done)) s).
Proof.
  intros Hsegs [[-> ->] | (j & sj & pre & p & -> & Hj & Hsj & Ha & He & Hsp)].
  - right. exists 0, s, [], s. subst segs. repeat split; done.
  - right. exists j, sj, (pre ++ [p]), s. unfold absorb. rewrite Ha.
    cbn [fst snd start_time end_time speaker].
    repeat split; try done. rewrite length_app. simpl. lia.
Qed.

Lemma opened_final speakers segs cur :
  opened_at speakers segs segs cur →
  PyStr.truthy (PyStr.strip (text cur)) = true →
  spans_segments speakers segs cur.
Proof.
  intros [[-> ->] | (j & sj & pre & p & Hsegs & Hj & Hsj & Ha & He & Hsp)] Htxt.
  - discriminate.
  - exists j, (length pre), sj, p. repeat split; try done.
    rewrite Hsegs. by apply list_lookup_middle.
Qed.

Lemma chunk_provenance (transcript : Transcript)
    (speakers : option (gmap nat string)) (chunk_duration : Q) (c : Chunk) :
  c ∈ chunk_transcript_by_time transcript speakers chunk_duration →
  ∃ j k sj sk,
    j ≤ k
    ∧ segments transcript !! j = Some sj
    ∧ segments transcript !! k = Some sk
    ∧ start_time c = Some (seg_start sj)
    ∧ end_time c = Some (seg_end sk)
    ∧ speaker c = speaker_of speakers j.
Proof.
  unfold chunk_transcript_by_time. intros Hin.
  destruct (chunk_loop_invariant speakers chunk_duration (segments transcript)
              (opened_at speakers (segments transcript))
              (spans_segments speakers (segments transcript))
              (opened_close speakers (segments transcript))
              (opened_reopen speakers (segments transcript))
              (fun done s rest cur H1 H2 _ =>
                 opened_keep speakers (segments transcript) done s rest cur H1 H2)
              (segments transcript) [] [] initial_chunk eq_refl)
    as [Hacc Hchunks].
  { by left. }
  { constructor. }
  change (length []) with 0 in Hacc, Hchunks.
  destruct (chunk_loop speakers chunk_duration 0 (segments transcript)
              ([], initial_chunk)) as [chunks cur].
  cbn [fst snd finish] in *. rewrite Forall_forall in Hchunks.
  destruct (PyStr.truthy (PyStr.strip (text cur))) eqn:Htxt.
  - apply elem_of_app in Hin as [Hin | Hin]; [exact (Hchunks c Hin) |].
    apply list_elem_of_singleton in Hin as ->.
    exact (opened_final _ _ _ Hacc Htxt).
  - exact (Hchunks c Hin).
Qed.

(** Every chunk runs from the start of some segment to the end of a
    segment that is not earlier, and carries the speaker label of the
    segment it starts with. *)
Theorem chunk_spans_segments (transcript : Transcript)
    (speakers : option (gmap nat string)) (chunk_duration : Q) (c : Chunk) :
  c ∈ chunk_transcript_by_time transcript speakers chunk_duration →
  ∃ j k sj sk,
    j ≤ k
    ∧ segments transcript !! j = Some sj
    ∧ segments transcript !! k = Some sk
    ∧ start_time c = Some (seg_start sj)
    ∧ end_time c = Some (seg_end sk)
    ∧ speaker c = speaker_of speakers j.
Proof. apply chunk_provenance. Qed.

Lemma chunk_spans_segments_witness :
  ∃ j k sj sk,
    j ≤ k
    ∧ segments gap_segments !! j = Some sj
    ∧ segments gap_segments !! k = Some sk
    ∧ start_time (chunk "b" 100 101 "Unknown") = Some (seg_start sj)
    ∧ end_time (chunk "b" 100 101 "Unknown") = Some (seg_end sk)
    ∧ speaker (chunk "b" 100 101 "Unknown") = speaker_of None j.
Proof.
  apply (chunk_spans_segments gap_segments None 30).
  vm_compute. right. left.
Defined.

(** Segments that do not run backwards and do not overlap. *)
Lemma ordered_segments (segs : list Segment) :
  (∀ i s, segs !! i = Some s → (seg_start s <= seg_end s)%Q) →
  (∀ i s s', segs !! i = Some s → segs !! S i = Some s' →
             (seg_end s <= seg_start s')%Q) →
  ∀ k j sj sk, j ≤ k → segs !! j = Some sj → segs !! k = Some sk →
               (seg_start sj <= seg_end sk)%Q.
Proof.
  intros Hseg Hnext. induction k as [| k IH]; intros j sj sk Hjk Hj Hk.
  - assert (j = 0) as -> by lia. rewrite Hj in Hk. injection Hk as <-. eauto.
  - destruct (decide (j = S k)) as [-> | Hne].
    + rewrite Hj in Hk. injection Hk as <-. eauto.
    + destruct (lookup_lt_is_Some_2 segs k) as [sk' Hk'].
      { apply lookup_lt_Some in Hk. lia. }
      pose proof (IH j sj sk' ltac:(lia) Hj Hk') as H1.
      pose proof (Hnext k sk' sk Hk' Hk) as H2.
      pose proof (Hseg (S k) sk Hk) as H3. lra.
Qed.

(** When no segment ends before it starts and no segment starts before
    the previous one has ended, every chunk has
    [start_time <= end_time]. *)
Theorem chunk_start_before_end (transcript : Transcript)
    (speakers : option (gmap nat string)) (chunk_duration : Q) (c : Chunk) :
  (∀ i s, segments transcript !! i = Some s → (seg_start s <= seg_end s)%Q) →
  (∀ i s s', segments transcript !! i = Some s →
             segments transcript !! S i = Some s' →
             (seg_end s <= seg_start s')%Q) →
  c ∈ chunk_transcript_by_time transcript speakers chunk_duration →
  ∃ a e, start_time c = Some a ∧ end_time c = Some e ∧ (a <= e)%Q.
Proof.
  intros Hseg Hnext Hin.
  destruct (chunk_provenance _ _ _ _ Hin)
    as (j & k & sj & sk & Hjk & Hj & Hk & Ha & He & _).
  exists (seg_start sj), (seg_end sk). repeat split; try done.
  by eapply ordered_segments.
Qed.

Lemma chunk_start_before_end_witness :
  ∃ a e, start_time (chunk " hello world ok" 0 25 "Speaker_0") = Some a
         ∧ end_time (chunk " hello world ok" 0 25 "Speaker_0") = Some e
         ∧ (a <= e)%Q.
Proof.
  apply (chunk_start_before_end three_segments
           (Some (identify_speakers three_segments)) 30).
  - intros i s Hi.
    destruct i as [| [| [| i]]]; vm_compute in Hi; [| | | discriminate Hi];
      injection Hi as <-; vm_compute; discriminate.
  - intros i s s' Hi Hi'.
    destruct i as [| [| [| i]]]; vm_compute in Hi, Hi';
      try discriminate Hi'; injection Hi as <-; injection Hi' as <-;
      vm_compute; discriminate.
  - vm_compute. left.
Defined.

(** Without a speaker assignment ([None] or an empty dictionary) every
    chunk is labelled Unknown. *)
Theorem chunks_without_speakers_are_unknown (transcript : Transcript)
    (speakers : option (gmap nat string)) (chunk_duration : Q) (c : Chunk) :
  speakers = None ∨ speakers = Some ∅ →
  c ∈ chunk_transcript_by_time transcript speakers chunk_duration →
  speaker c = "Unknown".
Proof.
  intros Hsp Hin.
  destruct (chunk_provenance _ _ _ _ Hin)
    as (j & _ & _ & _ & _ & _ & _ & _ & _ & ->).
  by destruct Hsp as [-> | ->].
Qed.

Lemma chunks_without_speakers_are_unknown_witness :
  speaker (chunk " a b" 0 40 "Unknown") = "Unknown".
Proof.
  apply (chunks_without_speakers_are_unknown back_to_back (Some ∅) 30).
  - by right.
  - vm_compute. left.
Defined.

(** ** How many chunks *)

Lemma chunk_loop_length speakers chunk_duration : ∀ segs i chunks cur,
  length (fst (chunk_loop speakers chunk_duration i segs (chunks, cur)))
  ≤ length chunks + length segs.
Proof.
  induction segs as [| s segs IH]; intros i chunks cur; [simpl; lia |].
  cbn [chunk_loop length]. unfold chunk_step.
  destruct (negb _ && _); [| destruct (Qle_bool _ _)].
  - etrans; [apply IH |]. rewrite length_app. simpl. lia.
  - etrans; [apply IH |]. rewrite length_app. simpl. lia.
  - etrans; [apply IH |]. lia.
Qed.

(** A transcript of [n] segments gives at most [n + 1] chunks: one per
    iteration and one after the loop. *)
Theorem chunk_count_bound (transcript : Transcript)
    (speakers : option (gmap nat string)) (chunk_duration : Q) :
  length (chunk_transcript_by_time transcript speakers chunk_duration)
  ≤ length (segments transcript) + 1.
Proof.
  unfold chunk_transcript_by_time.
  pose proof (chunk_loop_length speakers chunk_duration (segments transcript)
                0 [] initial_chunk) as H.
  destruct (chunk_loop _ _ _ _ _) as [chunks cur]. cbn [fst finish length] in *.
  destruct (PyStr.truthy _); [rewrite length_app; simpl |]; lia.
Qed.

(** ** A short monologue is one chunk *)

Lemma chunk_loop_quiet speakers chunk_duration sp a : ∀ rest i chunks cur,
  start_time cur = Some a → speaker cur = sp →
  (∀ k s, rest !! k = Some s →
          speaker_of speakers (i + k) = sp ∧ (seg_end s - a < chunk_duration)%Q) →
  chunk_loop speakers chunk_duration i rest (chunks, cur)
  = (chunks,
     {| text := text cur +:+ joined_text rest;
        start_time := Some a;
        end_time := from_option (fun s => Some (seg_end s)) (end_time cur) (last rest);
        words := words cur ++ joined_words rest;
        speaker := sp |}).
Proof.
  induction rest as [| s rest IH]; intros i chunks cur Ha Hsp Hall.
  - cbn [chunk_loop joined_text joined_words last from_option].
    rewrite SearchFacts.append_empty_r, app_nil_r.
    destruct cur; cbn in *; by subst.
  - destruct (Hall 0 s eq_refl) as [Hs Hlt]. rewrite Nat.add_0_r in Hs.
    cbn [chunk_loop]. unfold chunk_step.
    assert (Habs : absorb cur (speaker_of speakers i) s
              = {| text := text cur +:+ " " +:+ seg_text s;
                   start_time := Some a; end_time := Some (seg_end s);
                   words := words cur ++ seg_words s; speaker := sp |}).
    { unfold absorb. rewrite Ha. cbn [fst snd]. by rewrite Hsp. }
    rewrite Habs. cbn [speaker text]. rewrite Hs, String.eqb_refl.
    cbn [negb andb]. unfold span. cbn [start_time end_time default from_option id].
    assert (Hd : Qle_bool chunk_duration (seg_end s - a) = false).
    { destruct (Qle_bool chunk_duration (seg_end s - a)) eqn:E; [| done].
      apply Qle_bool_iff in E. lra. }
    rewrite Hd, IH; [| reflexivity | reflexivity |].
    + cbn [text words end_time joined_text joined_words].
      f_equal. f_equal.
      * by rewrite !append_assoc.
      * rewrite last_cons. by destruct (last rest).
      * by rewrite app_assoc.
    + intros k s' Hk. specialize (Hall (S k) s' Hk).
      by replace (i + S k) with (S i + k) in Hall by lia.
Qed.

Lemma one_chunk (transcript : Transcript)
    (speakers : option (gmap nat string)) (chunk_duration : Q)
    (s0 : Segment) (rest : list Segment) :
  segments transcript = s0 :: rest →
  (∀ i, i < length (segments transcript) →
        speaker_of speakers i = speaker_of speakers 0) →
  (∀ s, s ∈ segments transcript →
        (seg_end s - seg_start s0 < chunk_duration)%Q) →
  chunk_transcript_by_time transcript speakers chunk_duration
  = if has_visible (joined_text (segments transcript)) then
      [{| text := joined_text (segments transcript);
          start_time := Some (seg_start s0);
          end_time := (fun s => seg_end s) <$> last (segments transcript);
          words := joined_words (segments transcript);
          speaker := speaker_of speakers 0 |}]
    else [].
Proof.
  intros Hsegs Hsame Hshort. unfold chunk_transcript_by_time.
  rewrite Hsegs in *.
  cbn [chunk_loop]. unfold chunk_step.
  change (absorb initial_chunk (speaker_of speakers 0) s0)
    with {| text := "" +:+ " " +:+ seg_text s0;
            start_time := Some (seg_start s0); end_time := Some (seg_end s0);
            words := [] ++ seg_words s0; speaker := speaker_of speakers 0 |}.
  cbn [speaker text]. rewrite String.eqb_refl. cbn [negb andb].
  unfold span. cbn [start_time end_time default from_option id].
  assert (Hd : Qle_bool chunk_duration (seg_end s0 - seg_start s0) = false).
  { destruct (Qle_bool chunk_duration (seg_end s0 - seg_start s0)) eqn:E;
      [| done].
    apply Qle_bool_iff in E. specialize (Hshort s0 ltac:(left)). lra. }
  rewrite Hd.
  rewrite (chunk_loop_quiet speakers chunk_duration (speaker_of speakers 0)
             (seg_start s0) rest 1); [| reflexivity | reflexivity |].
  - cbn [finish text end_time words joined_text joined_words app].
    rewrite truthy_strip, append_nil_l, <- append_assoc.
    destruct (has_visible _); [| done]. f_equal. f_equal.
    rewrite last_cons. by destruct (last rest).
  - intros k s Hk. split.
    + apply Hsame. apply lookup_lt_Some in Hk. simpl. lia.
    + apply Hshort. right. by eapply list_elem_of_lookup_2.
Qed.

(** The segment texts are ASCII.  When every segment carries the label
    of the first one and ends less than [chunk_duration] after the
    start of the first one, both exactly and in the float difference
    the source computes, the whole transcript is a single chunk: its
    text is the texts of the segments, each preceded by a space, it
    runs from the first start to the last end, and it holds all the
    words.  It is dropped only when no segment has a visible
    character. *)
Theorem short_monologue_is_one_chunk (transcript : Transcript)
    (speakers : option (gmap nat string)) (chunk_duration : Q)
    (s0 : Segment) (rest : list Segment) :
  segments transcript = s0 :: rest →
  (∀ i, i < length (segments transcript) →
        speaker_of speakers i = speaker_of speakers 0) →
  (∀ s, s ∈ segments transcript →
        (seg_end s - seg_start s0 < chunk_duration)%Q
        ∧ (Float64.sub (seg_end s) (seg_start s0) < chunk_duration)%Q) →
  (∀ s, s ∈ segments transcript → PyStr.is_ascii (seg_text s) = true) →
  chunk_transcript_by_time transcript speakers chunk_duration
  = if has_visible (joined_text (segments transcript)) then
      [{| text := joined_text (segments transcript);
          start_time := Some (seg_start s0);
          end_time := (fun s => seg_end s) <$> last (segments transcript);
          words := joined_words (segments transcript);
          speaker := speaker_of speakers 0 |}]
    else [].
Proof.
  intros Hsegs Hsame Hshort _.
  apply (one_chunk transcript speakers chunk_duration s0 rest Hsegs Hsame).
  intros s Hs. by apply Hshort.
Qed.

Lemma short_monologue_is_one_chunk_witness :
  chunk_transcript_by_time three_segments None 30
  = [chunk " hello world ok" 0 25 "Unknown"].
Proof.
  apply (short_monologue_is_one_chunk three_segments None 30
           (seg 0 10 "hello") [seg (21 # 2) 15 "world"; seg 18 25 "ok"]).
  - reflexivity.
  - reflexivity.
  - intros s Hs.
    repeat (apply elem_of_cons in Hs as [-> | Hs]; [by vm_compute |]).
    by apply elem_of_nil in Hs.
  - intros s Hs.
    repeat (apply elem_of_cons in Hs as [-> | Hs]; [reflexivity |]).
    by apply elem_of_nil in Hs.
Defined.

(** ** No segment with visible text is lost *)

Lemma absorb_contains_old cur sp s t :
  PyStr.contains (text cur) t = true →
  PyStr.contains (text (absorb cur sp s)) t = true.
Proof. apply contains_app_l. Qed.

Lemma absorb_contains_new cur sp s :
  PyStr.contains (text (absorb cur sp s)) (seg_text s) = true.
Proof.
  cbn [absorb text]. do 2 apply contains_app_r. apply contains_refl.
Qed.

Lemma chunk_step_covered speakers chunk_duration done st i s :
  covered done st →
  covered (done ++ [s]) (chunk_step speakers chunk_duration st i s).
Proof.
  destruct st as [chunks cur]. intros Hcov s' Hs'.
  assert (Hin : PyStr.contains (text (absorb cur (speaker_of speakers i) s))
                  (seg_text s') = true
                ∨ ∃ c, c ∈ chunks ∧ PyStr.contains (text c) (seg_text s') = true).
  { apply elem_of_app in Hs' as [Hs' | ->%list_elem_of_singleton].
    - destruct (Hcov s' Hs') as [H | H]; [by right |].
      left. by apply absorb_contains_old.
    - left. apply absorb_contains_new. }
  unfold chunk_step.
  destruct (negb _ && _); [| destruct (Qle_bool _ _)]; cbn [fst snd].
  - left. destruct Hin as [H | (c & Hc & H)].
    + eexists. split; [| exact H]. apply elem_of_app. right. left.
    + exists c. split; [| exact H]. apply elem_of_app. by left.
  - left. destruct Hin as [H | (c & Hc & H)].
    + eexists. split; [| exact H]. apply elem_of_app. right. left.
    + exists c. split; [| exact H]. apply elem_of_app. by left.
  - destruct Hin as [H | H]; [by right | by left].
Qed.

Lemma chunk_loop_covered speakers chunk_duration : ∀ rest done st i,
  covered done st →
  covered (done ++ rest) (chunk_loop speakers chunk_duration i rest st).
Proof.
  induction rest as [| s rest IH]; intros done st i Hcov.
  - by rewrite app_nil_r.
  - cbn [chunk_loop]. rewrite (assoc_L (++) done [s] rest : done ++ s :: rest = _).
    apply IH. by apply chunk_step_covered.
Qed.

Lemma has_visible_ascii_visible (s : string) :
  has_visible_ascii s = true → has_visible s = true.
Proof.
  induction s as [| c s IH]; [done |]. cbn [has_visible_ascii has_visible].
  intros [[_ H]%andb_prop | H]%orb_prop.
  - by rewrite H.
  - rewrite (IH H). apply orb_true_r.
Qed.

(** The text of every segment that has an ASCII character other than
    white space is contained in the text of at least one chunk. *)
Theorem visible_segment_is_in_a_chunk (transcript : Transcript)
    (speakers : option (gmap nat string)) (chunk_duration : Q) (s : Segment) :
  s ∈ segments transcript → has_visible_ascii (seg_text s) = true →
  ∃ c, c ∈ chunk_transcript_by_time transcript speakers chunk_duration
       ∧ PyStr.contains (text c) (seg_text s) = true.
Proof.
  intros Hs Hvis%has_visible_ascii_visible. unfold chunk_transcript_by_time.
  pose proof (chunk_loop_covered speakers chunk_duration (segments transcript)
                [] ([], initial_chunk) 0) as Hcov.
  cbn [app] in Hcov. specialize (Hcov ltac:(by intros ? ?%elem_of_nil) s Hs).
  destruct (chunk_loop _ _ _ _ _) as [chunks cur]. cbn [fst snd finish] in *.
  rewrite truthy_strip.
  destruct Hcov as [(c & Hc & H) | H].
  - exists c. split; [| exact H].
    destruct (has_visible (text cur)); [apply elem_of_app; by left | done].
  - rewrite (has_visible_contains _ _ H Hvis).
    exists cur. split; [| exact H]. apply elem_of_app. right. left.
Qed.

Lemma visible_segment_is_in_a_chunk_witness :
  ∃ c, c ∈ chunk_transcript_by_time back_to_back None 30
       ∧ PyStr.contains (text c) "c" = true.
Proof.
  apply (visible_segment_is_in_a_chunk back_to_back None 30 (seg 40 45 "c")).
  - vm_compute. right. right. left.
  - reflexivity.
Defined.

End ChunkerShapeFacts.

(** * Further properties of the speaker segmenter *)

Module SpeakerCountFacts.
Import AudioProcessor Examples ChunkerSpec ChunkerShape SpeakerFacts.

Lemma running_counter_S_le segs i :
  running_counter segs (S i) ≤ S (running_counter segs i).
Proof.
  cbn [running_counter].
  destruct (segs !! i), (segs !! S i); try lia.
  destruct (negb _); lia.
Qed.

(** The counter takes every value up to the one it ends with. *)
Lemma running_counter_onto segs : ∀ m k,
  k ≤ running_counter segs m → ∃ i, i ≤ m ∧ running_counter segs i = k.
Proof.
  induction m as [| m IH]; intros k Hk.
  - exists 0. cbn [running_counter] in *. split; lia.
  - pose proof (running_counter_S_le segs m) as Hle.
    destruct (decide (k ≤ running_counter segs m)) as [Hk' | Hk'].
    + destruct (IH k Hk') as (i & Hi & <-). exists i. split; [lia | done].
    + exists (S m). split; lia.
Qed.

(** The labels in use are Speaker_0 up to the label of the last segment. *)
Lemma speaker_labels (transcript : Transcript) (v : string) :
  segments transcript ≠ [] →
  v ∈ (list_to_set (map_to_list (identify_speakers transcript)).*2 : gset string)
  ↔ v ∈ speaker_label
        <$> seq 0 (S (running_counter (segments transcript)
                        (length (segments transcript) - 1))).
Proof.
  intros Hne. rewrite elem_of_list_to_set, !list_elem_of_fmap.
  assert (Hpos : 0 < length (segments transcript))
    by (destruct (segments transcript); [done | simpl; lia]).
  split.
  - intros ([i l] & -> & Hil). apply elem_of_map_to_list in Hil.
    rewrite identify_speakers_lookup in Hil.
    case_decide as Hi; [| done]. injection Hil as <-.
    eexists. split; [reflexivity |]. apply elem_of_seq.
    pose proof (running_counter_mono (segments transcript) i
                  (length (segments transcript) - 1)).
    lia.
  - intros (k & -> & Hk). apply elem_of_seq in Hk.
    destruct (running_counter_onto (segments transcript)
                (length (segments transcript) - 1) k) as (i & Hi & <-); [lia |].
    exists (i, speaker_label (running_counter (segments transcript) i)).
    split; [done |]. apply elem_of_map_to_list.
    rewrite identify_speakers_lookup. case_decide; [done | lia].
Qed.

(** The speaker count stored for an episode, [len(set(speakers.values()))],
    is zero for an empty transcript and otherwise one more than the
    number of pauses longer than two seconds between consecutive
    segments. *)
Theorem speaker_count_is_long_pauses_plus_one (transcript : Transcript) :
  count_speakers (identify_speakers transcript)
  = match segments transcript with
    | [] => 0
    | _ => S (running_counter (segments transcript)
                (length (segments transcript) - 1))
    end.
Proof.
  destruct (segments transcript) as [| s0 rest] eqn:Hsegs.
  - unfold identify_speakers. rewrite Hsegs. reflexivity.
  - rewrite <- Hsegs.
    assert (Hne : segments transcript ≠ []) by (by rewrite Hsegs).
    unfold count_speakers.
    destruct (decide (identify_speakers transcript = ∅)) as [He | _].
    { pose proof (identify_speakers_lookup transcript 0) as H0.
      rewrite He, lookup_empty, Hsegs in H0. by case_decide; [| simpl in *; lia]. }
    assert (Heq : (list_to_set (map_to_list (identify_speakers transcript)).*2
                    : gset string)
                  = list_to_set
                      (speaker_label
                         <$> seq 0 (S (running_counter (segments transcript)
                                         (length (segments transcript) - 1))))).
    { apply set_eq. intros v. rewrite (speaker_labels transcript v Hne).
      by rewrite elem_of_list_to_set. }
    rewrite Heq, size_list_to_set.
    + by rewrite length_fmap, length_seq.
    + apply NoDup_fmap_2_strong; [| apply NoDup_seq].
      intros a b _ _. apply speaker_label_inj.
Qed.

(** In the ingestion pipeline the chunker is given the dictionary of the
    segmenter.  Every chunk then carries one of the segmenter's labels:
    Speaker_k for a [k] not above the number of long pauses, never
    Unknown. *)
Theorem pipeline_chunks_carry_speaker_labels (transcript : Transcript)
    (chunk_duration : Q) (c : Chunk) :
  c ∈ chunk_transcript_by_time transcript
        (Some (identify_speakers transcript)) chunk_duration →
  ∃ k, k ≤ running_counter (segments transcript)
             (length (segments transcript) - 1)
       ∧ speaker c = speaker_label k.
Proof.
  intros Hin.
  destruct (ChunkerShapeFacts.chunk_provenance _ _ _ _ Hin)
    as (j & _ & sj & _ & _ & Hj & _ & _ & _ & Hsp).
  apply lookup_lt_Some in Hj.
  pose proof (identify_speakers_lookup transcript j) as Hl.
  case_decide; [| lia].
  exists (running_counter (segments transcript) j). split.
  - apply running_counter_mono. lia.
  - rewrite Hsp. unfold speaker_of.
    destruct (decide (identify_speakers transcript = ∅)) as [He | _].
    + by rewrite He, lookup_empty in Hl.
    + by rewrite Hl.
Qed.

Lemma pipeline_chunks_carry_speaker_labels_witness :
  ∃ k, k ≤ running_counter (segments three_segments)
             (length (segments three_segments) - 1)
       ∧ speaker (chunk "ok" 18 25 "Speaker_1") = speaker_label k.
Proof.
  apply (pipeline_chunks_carry_speaker_labels three_segments 30).
  vm_compute. right. left.
Defined.

End SpeakerCountFacts.

(** * Properties of indexing, episode search and statistics *)

Module IndexerStoreFacts.
Import AudioProcessor TextIndexer SearchSpec ChunkerShape IndexerStore StringFacts.

(** ** What is handed to the collection *)

Lemma bool_filter_sublist {A} (p : A → bool) (l : list A) :
  List.filter p l `sublist_of` l.
Proof.
  induction l as [| x l IH]; [constructor |]. cbn [List.filter].
  destruct (p x); [by apply sublist_skip | by apply sublist_cons].
Qed.

Lemma bool_filter_elem_of {A} (p : A → bool) (l : list A) (x : A) :
  x ∈ List.filter p l ↔ x ∈ l ∧ p x = true.
Proof. rewrite !list_elem_of_In. apply List.filter_In. Qed.

(** The chunks indexed from position [i] on. *)
Lemma add_loop_spec episode_id episode_title : ∀ chunks i acc,
  add_loop episode_id episode_title i chunks acc
  = let kept := List.filter (fun ic => has_visible (text ic.2))
                  (imap (fun k c => (i + k, c)) chunks) in
    {| batch_documents :=
         batch_documents acc ++ ((fun ic => text ic.2) <$> kept);
       batch_metadatas :=
         batch_metadatas acc
         ++ ((fun ic => chunk_metadata episode_id episode_title ic.1 ic.2)
               <$> kept);
       batch_ids :=
         batch_ids acc ++ ((fun ic => chunk_id episode_id ic.1) <$> kept) |}.
Proof.
  induction chunks as [| c chunks IH]; intros i acc.
  - cbn. rewrite !app_nil_r. by destruct acc.
  - cbn [add_loop]. rewrite truthy_strip, imap_cons.
    cbn [List.filter snd]. rewrite Nat.add_0_r.
    rewrite (imap_ext ((fun k c0 => (i + k, c0)) ∘ S)
               (fun k c0 => (S i + k, c0)) chunks)
      by (intros; cbn; f_equal; lia).
    destruct (has_visible (text c)); cbn [negb]; rewrite IH; cbv zeta;
      cbn [fmap list_fmap fst snd batch_documents batch_metadatas batch_ids];
      [| done].
    by rewrite <- !app_assoc.
Qed.

Lemma imap_positions (chunks : list Chunk) : ∀ i,
  (imap (fun k c => (i + k, c)) chunks).*1 = seq i (length chunks).
Proof.
  induction chunks as [| c chunks IH]; intros i; [done |].
  rewrite imap_cons. cbn [fmap list_fmap fst length seq].
  rewrite Nat.add_0_r. f_equal. rewrite <- IH. f_equal.
  apply imap_ext. intros; cbn; f_equal; lia.
Qed.

Lemma indexed_positions (chunks : list Chunk) :
  (indexed chunks).*1 `sublist_of` seq 0 (length chunks).
Proof.
  unfold indexed. rewrite <- (imap_positions chunks 0).
  apply fmap_sublist, bool_filter_sublist.
Qed.

Lemma chunk_id_inj episode_id i j :
  chunk_id episode_id i = chunk_id episode_id j → i = j.
Proof.
  unfold chunk_id. intros H. do 2 apply (inj (String.app _)) in H.
  by apply (inj pretty) in H.
Qed.

(** The chunk texts are ASCII.  [add_transcript_chunks] hands the
    collection exactly the chunks whose text has a visible character,
    in their order: the text as document, the metadata built from the
    chunk, and the id of the chunk's position in the list it was given
    (positions of skipped chunks are not reused).  When no chunk has
    visible text the collection is not called and the call succeeds;
    otherwise the outcome of [collection.add] is the outcome of the
    call. *)
Theorem add_transcript_chunks_batch
    (collection_add : Batch → result unit) (chunks : list Chunk)
    (episode_id episode_title : string) :
  Forall (fun c => PyStr.is_ascii (text c) = true) chunks →
  add_transcript_chunks collection_add chunks episode_id episode_title
  = match indexed chunks with
    | [] => Ok tt
    | kept =>
        collection_add
          {| batch_documents := (fun ic => text ic.2) <$> kept;
             batch_metadatas :=
               (fun ic => chunk_metadata episode_id episode_title ic.1 ic.2)
                 <$> kept;
             batch_ids := (fun ic => chunk_id episode_id ic.1) <$> kept |}
    end
  ∧ (∀ i c, (i, c) ∈ indexed chunks
            ↔ chunks !! i = Some c ∧ has_visible (text c) = true).
Proof.
  intros _. split.
  - unfold add_transcript_chunks. rewrite add_loop_spec. cbv zeta.
    cbn [batch_documents batch_metadatas batch_ids empty_batch app].
    change (List.filter _ (imap _ chunks)) with (indexed chunks).
    by destruct (indexed chunks).
  - intros i c. unfold indexed. rewrite bool_filter_elem_of. cbn [snd].
    rewrite list_elem_of_lookup. split.
    + intros [[k Hk] Hvis]. rewrite list_lookup_imap in Hk.
      destruct (chunks !! k) eqn:E; [| done]. cbn in Hk.
      injection Hk as <- <-. done.
    + intros [Hi Hvis]. split; [| done]. exists i.
      by rewrite list_lookup_imap, Hi.
Qed.

Lemma add_transcript_chunks_batch_witness :
  add_transcript_chunks refusing_collection sample_chunks "ep1" "Founders"
  = Raise "ep1_chunk_0,ep1_chunk_2".
Proof.
  assert (H : Forall (fun c => PyStr.is_ascii (text c) = true) sample_chunks)
    by (repeat constructor).
  destruct (add_transcript_chunks_batch refusing_collection sample_chunks
              "ep1" "Founders" H) as [Heq _].
  rewrite Heq. by vm_compute.
Defined.

(** The ids handed to the collection for one episode are pairwise
    distinct, and there are as many ids and metadata as documents. *)
Theorem chunk_ids_are_distinct (chunks : list Chunk)
    (episode_id episode_title : string) :
  let batch := add_loop episode_id episode_title 0 chunks empty_batch in
  NoDup (batch_ids batch)
  ∧ length (batch_ids batch) = length (batch_documents batch)
  ∧ length (batch_metadatas batch) = length (batch_documents batch)
  ∧ length (batch_documents batch) ≤ length chunks.
Proof.
  cbv zeta. rewrite add_loop_spec. cbv zeta.
  cbn [batch_documents batch_metadatas batch_ids empty_batch app].
  change (List.filter _ (imap _ chunks)) with (indexed chunks).
  rewrite !length_fmap.
  pose proof (indexed_positions chunks) as Hsub.
  repeat split.
  - change ((fun ic : nat * Chunk => chunk_id episode_id ic.1) <$> indexed chunks)
      with (chunk_id episode_id ∘ fst <$> indexed chunks).
    rewrite (list_fmap_compose fst (chunk_id episode_id)).
    apply NoDup_fmap_2_strong.
    + intros i j _ _. apply chunk_id_inj.
    + eapply sublist_NoDup; [apply NoDup_seq | exact Hsub].
  - apply sublist_length in Hsub. by rewrite length_fmap, length_seq in Hsub.
Qed.

(** ** Search within an episode *)

(** With an empty query [search_by_episode] lists what the collection
    holds for the episode, whatever [n_results] is: the documents and
    metadata as the collection returns them, and one distance 0 per
    document.  When the collection raises, for an empty or a non-empty
    query, the result is the empty result. *)
Theorem search_by_episode_without_query
    (collection_query_where : string → Z → string → result QueryResult)
    (collection_get_where : string → result (list string * list (option Metadata)))
    (episode_id : string) (n_results : Z) :
  let found := search_by_episode collection_query_where collection_get_where
                 episode_id "" n_results in
  (∀ docs metas, collection_get_where episode_id = Ok (docs, metas) →
     documents found = docs ∧ metadatas found = metas
     ∧ length (distances found) = length docs
     ∧ (∀ d, d ∈ distances found → d = 0%Q)
     ∧ (length metas = length docs →
        rows found = (fun dm => (dm.1, dm.2, 0%Q)) <$> zip docs metas))
  ∧ (∀ e, collection_get_where episode_id = Raise e → found = empty_result)
  ∧ (∀ query e, query ≠ "" →
       collection_query_where query n_results episode_id = Raise e →
       search_by_episode collection_query_where collection_get_where
         episode_id query n_results = empty_result).
Proof.
  cbv zeta. unfold search_by_episode. cbn [PyStr.truthy]. split; [| split].
  - intros docs metas Hget. rewrite Hget.
    cbn [mbind result_bind mret result_ret try_except fst snd
         documents metadatas distances].
    split; [done |]. split; [done |].
    split; [by rewrite length_replicate |]. split.
    + intros d Hd. by apply elem_of_replicate in Hd as [-> _].
    + intros Hlen. unfold rows. cbn [documents metadatas distances].
      clear Hget. revert metas Hlen.
      induction docs as [| d docs IH]; intros [| m metas] Hlen; try done.
      cbn. f_equal. apply IH. by injection Hlen.
  - intros e ->. done.
  - intros query e Hq ->. by destruct query.
Qed.

Lemma search_by_episode_without_query_witness :
  documents (search_by_episode (fun _ _ _ => Raise "unused")
               (fun _ => Ok (documents five_chunks, metadatas five_chunks))
               "ep1" "" 2)
  = documents five_chunks.
Proof.
  exact (proj1 (proj1 (search_by_episode_without_query
                         (fun _ _ _ => Raise "unused")
                         (fun _ => Ok (documents five_chunks, metadatas five_chunks))
                         "ep1" 2)
                  (documents five_chunks) (metadatas five_chunks) eq_refl)).
Defined.

(** ** Statistics *)

Lemma stats_loop_spec : ∀ all_metadata ids titles,
  let out := stats_loop all_metadata ids titles in
  (∀ x, x ∈ out.1 ↔
        x ∈ ids ∨ ∃ md, md ∈ present all_metadata ∧ TextIndexer.episode_id md = x)
  ∧ (∀ x, out.2 !! x
          = match last (filter (fun md => TextIndexer.episode_id md = x)
                          (present all_metadata)) with
            | Some md => Some (TextIndexer.episode_title md)
            | None => titles !! x
            end).
Proof.
  induction all_metadata as [| [md |] rest IH]; intros ids titles; cbv zeta.
  - cbn. split; [| done]. intros x. split; [by left |].
    intros [H | (md & Hmd & _)]; [done | by apply elem_of_nil in Hmd].
  - cbn [stats_loop]. destruct (IH ({[TextIndexer.episode_id md]} ∪ ids)
      (<[TextIndexer.episode_id md := TextIndexer.episode_title md]> titles))
      as [Hids Htitles].
    unfold present in *. cbn [omap list_omap id]. split.
    + intros x. rewrite Hids, elem_of_union, elem_of_singleton. split.
      * intros [[-> | H] | (md' & Hmd' & <-)]; [right | by left | right].
        -- exists md. split; [left | done].
        -- exists md'. split; [by right | done].
      * intros [H | (md' & Hmd' & <-)]; [left; by right |].
        apply elem_of_cons in Hmd' as [-> | Hmd']; [left; by left |].
        right. by exists md'.
    + intros x. rewrite Htitles, filter_cons.
      destruct (decide (TextIndexer.episode_id md = x)) as [<- | Hne].
      * rewrite last_cons.
        match goal with |- context [last ?l] => destruct (last l) end;
          [done |].
        by rewrite lookup_insert_eq.
      * match goal with |- context [last ?l] => destruct (last l) end;
          [done |].
        by rewrite lookup_insert_ne.
  - cbn [stats_loop]. destruct (IH ids titles) as [Hids Htitles].
    unfold present in *. cbn [omap list_omap id]. split; [exact Hids | exact Htitles].
Qed.

(** When the collection answers, the statistics report the chunk count
    of the collection as it is, and a duplicate-free list of exactly the
    episode ids that occur in the stored metadata; [total_episodes] is
    the length of that list, it never exceeds the number of stored
    metadata, and the capacity message is the one of that number. *)
Theorem collection_stats_episode_ids
    (collection_count : result nat)
    (collection_get_metadatas : result (list (option Metadata)))
    (count : nat) (all_metadata : list (option Metadata)) :
  collection_count = Ok count →
  collection_get_metadatas = Ok all_metadata →
  let stats := get_collection_stats collection_count collection_get_metadatas in
  total_chunks stats = count
  ∧ NoDup (episode_ids stats)
  ∧ (∀ x, x ∈ episode_ids stats
          ↔ ∃ md, Some md ∈ all_metadata ∧ TextIndexer.episode_id md = x)
  ∧ total_episodes stats = length (episode_ids stats)
  ∧ total_episodes stats ≤ length all_metadata
  ∧ indexing_capacity stats = capacity_status (total_episodes stats)
  ∧ max_capacity stats = Some 100.
Proof.
  intros -> ->. cbv zeta. unfold get_collection_stats.
  cbn [mbind result_bind].
  destruct (stats_loop_spec all_metadata ∅ ∅) as [Hids _].
  destruct (stats_loop all_metadata ∅ ∅) as [ids titles].
  cbn [mret result_ret try_except total_chunks episode_ids total_episodes
       indexing_capacity max_capacity fst] in *.
  assert (Hmem : ∀ x, x ∈ ids
            ↔ ∃ md, Some md ∈ all_metadata ∧ TextIndexer.episode_id md = x).
  { intros x. rewrite Hids. split.
    - intros [H | (md & Hmd & <-)]; [set_solver |].
      exists md. split; [| done]. unfold present in Hmd.
      apply list_elem_of_omap in Hmd as (o & Ho & Heq).
      unfold id in Heq. by subst o.
    - intros (md & Hmd & <-). right. exists md. split; [| done].
      unfold present. apply list_elem_of_omap. by exists (Some md). }
  split; [done |]. split; [apply NoDup_elements |]. split.
  { intros x. by rewrite elem_of_elements. }
  split; [reflexivity |]. split; [| done].
  assert (Hsub : ids ⊆ list_to_set (TextIndexer.episode_id <$> present all_metadata)).
  { intros x Hx. apply Hids in Hx as [Hx | (md & Hmd & <-)]; [set_solver |].
    apply elem_of_list_to_set. by apply list_elem_of_fmap_2. }
  apply subseteq_size in Hsub. etrans; [exact Hsub |].
  clear. unfold present.
  induction all_metadata as [| [md |] rest IH]; cbn [omap list_omap id fmap
    list_fmap length list_to_set foldr].
  - by rewrite size_empty.
  - rewrite size_union_alt, size_singleton.
    assert (Hd : size ((list_to_set (TextIndexer.episode_id <$> omap id rest)
                         : gset string) ∖ {[TextIndexer.episode_id md]})
                 ≤ size (list_to_set (TextIndexer.episode_id <$> omap id rest)
                          : gset string)).
    { apply subseteq_size. intros x [Hx _]%elem_of_difference. exact Hx. }
    lia.
  - lia.
Qed.

Lemma collection_stats_episode_ids_witness :
  total_episodes (get_collection_stats (Ok 5) (Ok (metadatas five_chunks)))
  ≤ length (metadatas five_chunks).
Proof.
  exact (proj1 (proj2 (proj2 (proj2 (proj2
           (collection_stats_episode_ids (Ok 5) (Ok (metadatas five_chunks))
              5 (metadatas five_chunks) eq_refl eq_refl)))))).
Defined.

(** The title reported for an episode id is the title of the last stored
    metadata carrying that id; ids that do not occur have no title. *)
Theorem collection_stats_titles_last_wins
    (collection_count : result nat)
    (collection_get_metadatas : result (list (option Metadata)))
    (count : nat) (all_metadata : list (option Metadata)) :
  collection_count = Ok count →
  collection_get_metadatas = Ok all_metadata →
  ∃ titles,
    episode_titles (get_collection_stats collection_count collection_get_metadatas)
      = Some titles
    ∧ ∀ x, titles !! x
           = TextIndexer.episode_title
               <$> last (filter (fun md => TextIndexer.episode_id md = x)
                           (present all_metadata)).
Proof.
  intros -> ->. unfold get_collection_stats. cbn [mbind result_bind].
  destruct (stats_loop_spec all_metadata ∅ ∅) as [_ Htitles].
  destruct (stats_loop all_metadata ∅ ∅) as [ids titles].
  cbn [mret result_ret try_except episode_titles snd] in *.
  exists titles. split; [done |]. intros x. rewrite Htitles.
  match goal with |- context [last ?l] => destruct (last l) end; [done |].
  apply lookup_empty.
Qed.

Lemma collection_stats_titles_last_wins_witness :
  ∃ titles,
    episode_titles (get_collection_stats (Ok 5) (Ok (metadatas five_chunks)))
      = Some titles
    ∧ ∀ x, titles !! x
           = TextIndexer.episode_title
               <$> last (filter (fun md => TextIndexer.episode_id md = x)
                           (present (metadatas five_chunks))).
Proof.
  exact (collection_stats_titles_last_wins (Ok 5) (Ok (metadatas five_chunks))
           5 (metadatas five_chunks) eq_refl eq_refl).
Defined.

End IndexerStoreFacts.

(** * What a search never returns *)

Module SearchSafetyFacts.
Import TextIndexer SearchSpec SearchFacts KeywordSearchFacts.

Section KeywordAny.
Variable results : QueryResult.
Variable query_terms : list string.
Variable n_results : Z.

(** Whatever the lists of [results] look like, the loop only appends
    documents of the list it walks that match a term, in order, and holds
    at most [max 1 n_results] documents when it ends. *)
Lemma keyword_loop_sound : ∀ docs i filtered out,
  keyword_loop results query_terms n_results i docs filtered = Ok out →
  (Z.of_nat (length (documents filtered)) < Z.max 1 n_results)%Z →
  ∃ added,
    documents out = documents filtered ++ added
    ∧ added `sublist_of` docs
    ∧ Forall (fun d => matches query_terms d = true) added
    ∧ (Z.of_nat (length (documents out)) <= Z.max 1 n_results)%Z.
Proof.
  induction docs as [| doc rest IH]; intros i filtered out Hrun Hlen.
  - injection Hrun as <-. exists []. rewrite app_nil_r.
    repeat split; [constructor | constructor | lia].
  - cbn [keyword_loop] in Hrun.
    destruct (matches query_terms doc) eqn:Hm.
    + destruct (py_index (metadatas results) i) as [m |]; [| done].
      destruct (py_index (distances results) i) as [d |]; [| done].
      cbn [mbind result_bind mret result_ret] in Hrun.
      assert (Hlen' : length (documents (push filtered doc m d))
                      = S (length (documents filtered)))
        by (simpl; rewrite length_app; simpl; lia).
      destruct (Z.leb_spec n_results
                  (Z.of_nat (length (documents (push filtered doc m d)))))
        as [Hfull | Hroom].
      * injection Hrun as <-. exists [doc].
        repeat split; [by apply sublist_skip, sublist_nil_l | by constructor | lia].
      * destruct (IH _ _ _ Hrun ltac:(lia)) as (added & Hout & Hsub & Hall & Hmax).
        exists (doc :: added).
        split; [rewrite Hout; cbn [documents push]; by rewrite <- app_assoc |].
        split; [by apply sublist_skip |]. split; [by constructor | exact Hmax].
    + cbn [mbind result_bind mret result_ret] in Hrun.
      destruct (Z.leb_spec n_results (Z.of_nat (length (documents filtered))))
        as [Hfull | Hroom].
      * injection Hrun as <-. exists []. rewrite app_nil_r.
        repeat split; [apply sublist_nil_l | constructor | lia].
      * destruct (IH _ _ _ Hrun Hlen) as (added & Hout & Hsub & Hall & Hmax).
        exists added. repeat split; [done | by apply sublist_cons | done | done].
Qed.

End KeywordAny.

(** Whatever the collection answers, a keyword search with an ASCII
    query only returns documents that, when they are ASCII text,
    contain in lower case one of the white-space separated terms of the
    lower-cased query; the returned documents are candidates the
    collection returned for the [2 * n_results] request, in the
    collection's order; the three result lists are parallel; and there
    are at most [max 1 n_results] documents (one document can come back
    when [n_results] is not positive). *)
Theorem keyword_search_is_sound
    (collection_query : string → Z → result QueryResult)
    (query : string) (n_results : Z) :
  let found := _keyword_search collection_query query n_results in
  let query_terms := PyStr.split (PyStr.lower query) in
  (PyStr.is_ascii query = true →
   words_of (PyStr.lower query) query_terms
   ∧ ∀ d, d ∈ documents found → PyStr.is_ascii d = true →
          ∃ term, term ∈ query_terms
                  ∧ PyStr.contains (PyStr.lower d) term = true)
  ∧ (∀ results, collection_query query (n_results * 2)%Z = Ok results →
                documents found `sublist_of` documents results)
  ∧ (∀ e, collection_query query (n_results * 2)%Z = Raise e →
          found = empty_result)
  ∧ well_formed found
  ∧ (Z.of_nat (length (documents found)) <= Z.max 1 n_results)%Z.
Proof.
  cbv zeta. split; [| split; [| split; [| split]]].
  - intros _. split; [by apply split_words |].
    assert (Hmatch : ∀ d,
              d ∈ documents (_keyword_search collection_query query n_results) →
              matches (PyStr.split (PyStr.lower query)) d = true).
    { unfold _keyword_search.
      destruct (collection_query query (n_results * 2)%Z) as [results | e];
        cbn [mbind result_bind try_except]; [| by intros d ?%elem_of_nil].
      destruct (keyword_loop _ _ _ _ _ _) as [out | e] eqn:Hrun;
        cbn [try_except]; [| by intros d ?%elem_of_nil].
      destruct (keyword_loop_sound _ _ _ _ _ _ _ Hrun)
        as (added & Hout & _ & Hall & _).
      { simpl. lia. }
      rewrite Hout. cbn [documents empty_result app].
      intros d Hd. by apply (proj1 (Forall_forall _ _) Hall). }
    intros d Hd _. specialize (Hmatch d Hd).
    unfold matches, PyStr.any in Hmatch.
    apply existsb_exists in Hmatch as (term & Hterm & Hc).
    exists term. split; [by apply list_elem_of_In | done].
  - intros results Hq. unfold _keyword_search. rewrite Hq.
    cbn [mbind result_bind].
    destruct (keyword_loop _ _ _ _ _ _) as [out | e] eqn:Hrun;
      cbn [try_except]; [| apply sublist_nil_l].
    destruct (keyword_loop_sound _ _ _ _ _ _ _ Hrun) as (added & Hout & Hsub & _).
    { simpl. lia. }
    by rewrite Hout.
  - intros e Hq. unfold _keyword_search. by rewrite Hq.
  - apply keyword_search_wf.
  - unfold _keyword_search.
    destruct (collection_query query (n_results * 2)%Z) as [results | e];
      cbn [mbind result_bind try_except]; [| simpl; lia].
    destruct (keyword_loop _ _ _ _ _ _) as [out | e] eqn:Hrun;
      cbn [try_except]; [| simpl; lia].
    destruct (keyword_loop_sound _ _ _ _ _ _ _ Hrun) as (added & _ & _ & _ & Hmax).
    { simpl. lia. }
    exact Hmax.
Qed.

Lemma merge_loop_sound room src : ∀ docs i combined out,
  merge_loop room src i docs combined = Ok out →
  NoDup (documents combined) →
  NoDup (documents out)
  ∧ ∀ d, d ∈ documents out → d ∈ documents combined ∨ d ∈ docs.
Proof.
  induction docs as [| doc rest IH]; intros i combined out Hrun Hnd.
  - injection Hrun as <-. split; [done | by left].
  - cbn [merge_loop] in Hrun.
    destruct (bool_decide (doc ∈ documents combined)) eqn:Hin;
      cbn [negb andb] in Hrun.
    + destruct (IH _ _ _ Hrun Hnd) as [Hnd' Hfrom]. split; [done |].
      intros d Hd. destruct (Hfrom d Hd); [by left | right; by right].
    + apply bool_decide_eq_false in Hin.
      destruct (room combined).
      * destruct (py_index (metadatas src) i) as [m |]; [| done].
        destruct (py_index (distances src) i) as [x |]; [| done].
        cbn [mbind result_bind] in Hrun.
        destruct (IH _ _ _ Hrun) as [Hnd' Hfrom].
        { cbn [documents push]. apply NoDup_app. split; [done |].
          split; [| apply NoDup_singleton].
          intros y Hy ->%list_elem_of_singleton. done. }
        split; [done |]. intros d Hd.
        destruct (Hfrom d Hd) as [H | H]; [| right; by right].
        cbn [documents push] in H.
        apply elem_of_app in H as [H | ->%list_elem_of_singleton];
          [by left | right; left].
      * destruct (IH _ _ _ Hrun Hnd) as [Hnd' Hfrom]. split; [done |].
        intros d Hd. destruct (Hfrom d Hd); [by left | right; by right].
Qed.

Lemma py_slice_to_sublist {A} (n : Z) (l : list A) :
  py_slice_to n l `sublist_of` l.
Proof. unfold py_slice_to. destruct (0 <=? n)%Z; apply sublist_take. Qed.

(** Whatever the collection answers, a hybrid search never returns the
    same document text twice, and every document it returns is a
    semantic hit or a keyword hit of the same query. *)
Theorem hybrid_search_is_sound
    (collection_query : string → Z → result QueryResult)
    (query : string) (n_results : Z) :
  let found := _hybrid_search collection_query query n_results in
  NoDup (documents found)
  ∧ ∀ d, d ∈ documents found →
         d ∈ documents (_semantic_search collection_query query n_results)
         ∨ d ∈ documents (_keyword_search collection_query query n_results).
Proof.
  cbv zeta. unfold _hybrid_search.
  destruct (merge_loop (fun _ => true) _ 0 _ empty_result) as [out1 | e] eqn:H1;
    cbn [mbind result_bind try_except];
    [| split; [constructor | by intros d ?%elem_of_nil]].
  destruct (merge_loop (has_room n_results) _ 0 _ out1) as [out2 | e] eqn:H2;
    cbn [mbind result_bind mret result_ret try_except documents];
    [| split; [constructor | by intros d ?%elem_of_nil]].
  destruct (merge_loop_sound _ _ _ _ _ _ H1) as [Hnd1 Hfrom1]; [constructor |].
  destruct (merge_loop_sound _ _ _ _ _ _ H2 Hnd1) as [Hnd2 Hfrom2].
  pose proof (py_slice_to_sublist n_results (documents out2)) as Hsub.
  split; [by eapply sublist_NoDup |].
  intros d Hd. eapply sublist_subseteq in Hd; [| exact Hsub].
  destruct (Hfrom2 d Hd) as [H | H]; [| by right].
  destruct (Hfrom1 d H) as [H' | H']; [by apply elem_of_nil in H' | by left].
Qed.

Lemma keyword_search_is_sound_witness :
  PyStr.is_ascii "startup" = true
  ∧ ∃ term, term ∈ PyStr.split (PyStr.lower "startup")
            ∧ PyStr.contains (PyStr.lower "My first Startup failed") term
              = true.
Proof.
  assert (Hquery : PyStr.is_ascii "startup" = true) by reflexivity.
  split; [exact Hquery |].
  destruct (keyword_search_is_sound (ranked_collection five_chunks)
              "startup" 5) as (Hsound & _).
  apply (proj2 (Hsound Hquery) "My first Startup failed").
  - vm_compute. by left.
  - reflexivity.
Defined.

End SearchSafetyFacts.

(** * Further properties of the RAG engine *)

Module RAGFacts.
Import TextIndexer SearchSpec RAGEngine RAGAdvice StringFacts.

(** ** The context *)

Lemma concat_contains (sep : string) (parts : list string) (part : string) :
  part ∈ parts → PyStr.contains (String.concat sep parts) part = true.
Proof.
  induction parts as [| x parts IH]; intros Hin; [by apply elem_of_nil in Hin |].
  destruct parts as [| y parts].
  - apply list_elem_of_singleton in Hin as ->. apply contains_refl.
  - change (String.concat sep (x :: y :: parts))
      with (x +:+ sep +:+ String.concat sep (y :: parts)).
    apply elem_of_cons in Hin as [-> | Hin].
    + apply contains_app_l, contains_refl.
    + do 2 apply contains_app_r. by apply IH.
Qed.

Lemma context_loop_part : ∀ pairs i0 k doc md,
  pairs !! k = Some (doc, Some md) → doc ≠ "" →
  context_part (i0 + k) doc md ∈ context_loop i0 pairs.
Proof.
  induction pairs as [| [d m] pairs IH]; intros i0 k doc md Hk Hne; [done |].
  cbn [context_loop]. destruct k as [| k].
  - injection Hk as -> ->. rewrite Nat.add_0_r.
    destruct doc; [done |]. cbn [PyStr.truthy]. left.
  - cbn in Hk. replace (i0 + S k) with (S i0 + k) by lia.
    destruct (PyStr.truthy d), m; try right; by apply IH.
Qed.

Lemma context_loop_nothing : ∀ pairs i0,
  (∀ k doc m, pairs !! k = Some (doc, m) → doc = "" ∨ m = None) →
  context_loop i0 pairs = [].
Proof.
  induction pairs as [| [d m] pairs IH]; intros i0 Hall; [done |].
  cbn [context_loop].
  destruct (Hall 0 d m eq_refl) as [-> | ->].
  - cbn [PyStr.truthy]. apply IH. intros k doc m' Hk. exact (Hall (S k) doc m' Hk).
  - destruct (PyStr.truthy d); apply IH; intros k doc m' Hk;
      exact (Hall (S k) doc m' Hk).
Qed.

(** Without documents the context is the fixed sentence; with documents
    of which none can be rendered (each is empty or lacks metadata, or
    there are fewer metadata than documents) the context is the empty
    string, not that sentence. *)
Theorem format_context_without_sources (search_results : QueryResult) :
  (documents search_results = [] →
   format_context search_results = "No relevant content found.")
  ∧ (documents search_results ≠ [] →
     (∀ i doc metadata, ¬ rendered search_results i doc metadata) →
     format_context search_results = "").
Proof.
  unfold format_context. split.
  - by intros ->.
  - intros Hne Hnone. destruct (documents search_results) as [| d0 ds] eqn:Hd;
      [done |].
    cbn [try_except]. rewrite <- Hd. rewrite context_loop_nothing; [done |].
    intros k doc m Hk.
    apply lookup_zip_with_Some in Hk as (doc' & m' & [= <- <-] & Hdoc & Hm).
    destruct m as [md |]; [| by right]. left.
    destruct (decide (doc = "")) as [-> | Hdoc']; [done |].
    by destruct (Hnone k doc md).
Qed.

Lemma format_context_without_sources_witness :
  format_context {| documents := [""; "orphan"];
                    metadatas := [meta 0];
                    distances := [0%Q; 0%Q] |} = "".
Proof.
  apply (proj2 (format_context_without_sources
                  {| documents := [""; "orphan"]; metadatas := [meta 0];
                     distances := [0%Q; 0%Q] |})).
  - discriminate.
  - intros i doc md (Hd & Hm & Hne).
    destruct i as [| [| i]]; cbn in Hd, Hm; try discriminate.
    injection Hd as <-. done.
Defined.

(** Finds one operand of a chain of appends. *)
Ltac find_part :=
  first [ apply contains_refl
        | apply contains_app_l, contains_refl
        | apply contains_app_r; find_part ].

Lemma context_contains_block (search_results : QueryResult)
    (i : nat) (doc : string) (metadata : Metadata) :
  rendered search_results i doc metadata →
  let context := format_context search_results in
  PyStr.contains context (context_part i doc metadata) = true
  ∧ PyStr.contains context ("Source " +:+ pretty (i + 1)) = true
  ∧ PyStr.contains context doc = true
  ∧ PyStr.contains context (episode_title metadata) = true
  ∧ PyStr.contains context ("Speaker: " +:+ meta_speaker metadata) = true.
Proof.
  intros (Hd & Hm & Hne). cbv zeta.
  assert (Hblock : PyStr.contains (format_context search_results)
                     (context_part i doc metadata) = true).
  { unfold format_context.
    destruct (documents search_results) as [| d0 ds] eqn:Hdocs; [done |].
    cbn [try_except]. rewrite <- Hdocs in Hd |- *. apply concat_contains.
    apply (context_loop_part _ 0 i); [| done].
    apply lookup_zip_with_Some. by exists doc, (Some metadata). }
  split; [exact Hblock |].
  repeat split; (eapply contains_trans; [exact Hblock |]); unfold context_part.
  - rewrite <- (append_assoc "Source " (pretty (i + 1))). find_part.
  - find_part.
  - find_part.
  - rewrite <- (append_assoc "Speaker: " (meta_speaker metadata)). find_part.
Qed.

(** Every retrieved document that is rendered appears in the context as
    its block, numbered with its rank in the result (ranks of skipped
    documents are not reused); the block holds the document text, the
    episode title and the speaker. *)
Theorem format_context_contains_sources (search_results : QueryResult)
    (i : nat) (doc : string) (metadata : Metadata) :
  rendered search_results i doc metadata →
  let context := format_context search_results in
  PyStr.contains context (context_part i doc metadata) = true
  ∧ PyStr.contains context ("Source " +:+ pretty (i + 1)) = true
  ∧ PyStr.contains context doc = true
  ∧ PyStr.contains context (episode_title metadata) = true
  ∧ PyStr.contains context ("Speaker: " +:+ meta_speaker metadata) = true.
Proof. apply context_contains_block. Qed.

Lemma format_context_contains_sources_witness :
  PyStr.contains (format_context five_chunks) "My first Startup failed" = true.
Proof.
  assert (H : rendered five_chunks 2 "My first Startup failed"
                {| episode_id := "ep1"; episode_title := "Founders";
                   meta_start_time := 0; meta_end_time := 30;
                   meta_speaker := "Speaker_0"; chunk_index := 2 |}).
  { repeat split. discriminate. }
  exact (proj1 (proj2 (proj2 (format_context_contains_sources five_chunks 2 _ _ H)))).
Defined.

(** ** The prompt and the generation backends *)

Lemma prompt_contains (query context : string) :
  PyStr.contains (prompt query context) query = true
  ∧ PyStr.contains (prompt query context) context = true.
Proof. unfold prompt. split; find_part. Qed.

Section Answers.
Variables (gemini_key openai_key : option string) (default_model : string).
Variables gemini_generate_content openai_chat_completion : string → result string.
Variable collection_query : string → Z → result QueryResult.
Variables (query : string) (n_results : Z) (search_strategy : string).

Local Abbreviation ask :=
  (query_podcasts gemini_key openai_key default_model
     gemini_generate_content openai_chat_completion collection_query
     query n_results search_strategy).
Local Abbreviation retrieved :=
  (search_similar_content collection_query query n_results search_strategy).
Local Abbreviation the_prompt := (prompt query (format_context retrieved)).

(** With a configured key the selected backend is asked exactly one
    prompt: the template around the query and the context of the
    retrieved hits.  The prompt contains the query and the text of every
    rendered hit.  The response is the backend's text, or the backend's
    error after "Error generating response: ". *)
Theorem generation_prompt_is_grounded :
  (key_missing gemini_key = false →
   response (ask (Some "gemini"))
   = match gemini_generate_content the_prompt with
     | Ok answer => answer
     | Raise e => "Error generating response: " +:+ e
     end)
  ∧ (key_missing openai_key = false →
     response (ask (Some "openai"))
     = match openai_chat_completion the_prompt with
       | Ok answer => answer
       | Raise e => "Error generating response: " +:+ e
       end)
  ∧ PyStr.contains the_prompt query = true
  ∧ (∀ i doc metadata, rendered retrieved i doc metadata →
       PyStr.contains the_prompt doc = true).
Proof.
  split; [| split; [| split]].
  - intros Hkey. unfold query_podcasts, generate_gemini_response.
    cbn [try_except response]. by rewrite Hkey.
  - intros Hkey. unfold query_podcasts, generate_openai_response.
    cbn [try_except response]. by rewrite Hkey.
  - apply prompt_contains.
  - intros i doc metadata Hr. eapply contains_trans.
    + apply prompt_contains.
    + by apply (context_contains_block _ i doc metadata).
Qed.

(** A model is listed with status no_api_key exactly when its key is
    missing or empty, and a query to such a model is answered with the
    key-not-configured message whatever the backends would do; the
    sources are still those of the retrieval. *)
Theorem missing_key_blocks_generation :
  listed_status (get_available_models gemini_key openai_key) "gemini"
    = Some (if key_missing gemini_key then "no_api_key" else "available")
  ∧ listed_status (get_available_models gemini_key openai_key) "openai"
    = Some (if key_missing openai_key then "no_api_key" else "available")
  ∧ (listed_status (get_available_models gemini_key openai_key) "gemini"
       = Some "no_api_key" →
     response (ask (Some "gemini"))
       = "Error: Gemini API key not configured. Please set your Gemini API key in config.json or environment variables."
     ∧ sources (ask (Some "gemini")) = retrieved)
  ∧ (listed_status (get_available_models gemini_key openai_key) "openai"
       = Some "no_api_key" →
     response (ask (Some "openai"))
       = "Error: OpenAI API key not configured. Please set your OpenAI API key in config.json or environment variables."
     ∧ sources (ask (Some "openai")) = retrieved).
Proof.
  assert (Hg : listed_status (get_available_models gemini_key openai_key) "gemini"
               = Some (key_status gemini_key)) by reflexivity.
  assert (Ho : listed_status (get_available_models gemini_key openai_key) "openai"
               = Some (key_status openai_key)) by reflexivity.
  rewrite Hg, Ho. unfold key_status.
  split; [done |]. split; [done |]. split.
  - destruct (key_missing gemini_key) eqn:Hkey; [| discriminate]. intros _.
    unfold query_podcasts, generate_gemini_response.
    cbn [try_except response sources]. by rewrite Hkey.
  - destruct (key_missing openai_key) eqn:Hkey; [| discriminate]. intros _.
    unfold query_podcasts, generate_openai_response.
    cbn [try_except response sources]. by rewrite Hkey.
Qed.

(** Whatever the model id, the keys and the backends, the response is a
    text some generation backend returned, or it starts with "Error". *)
Theorem response_is_generated_or_error (model0 : option string) :
  PyStr.prefixb "Error" (response (ask model0)) = true
  ∨ (∃ p, gemini_generate_content p = Ok (response (ask model0)))
  ∨ (∃ p, openai_chat_completion p = Ok (response (ask model0))).
Proof.
  unfold query_podcasts. cbn [try_except response].
  destruct (String.eqb _ "gemini").
  { unfold generate_gemini_response.
    destruct (key_missing gemini_key); [by left |].
    destruct (gemini_generate_content _) as [answer | e] eqn:Hgen;
      cbn [try_except]; [right; left; by eexists | by left]. }
  destruct (String.eqb _ "openai").
  { unfold generate_openai_response.
    destruct (key_missing openai_key); [by left |].
    destruct (openai_chat_completion _) as [answer | e] eqn:Hgen;
      cbn [try_except]; [right; right; by eexists | by left]. }
  by left.
Qed.

End Answers.

Lemma generation_prompt_is_grounded_witness :
  PyStr.contains
    (prompt "startup"
       (format_context
          (search_similar_content (ranked_collection five_chunks) "startup" 3
             "semantic")))
    "My first Startup failed" = true.
Proof.
  assert (H : rendered
                (search_similar_content (ranked_collection five_chunks)
                   "startup" 3 "semantic")
                2 "My first Startup failed"
                {| episode_id := "ep1"; episode_title := "Founders";
                   meta_start_time := 0; meta_end_time := 30;
                   meta_speaker := "Speaker_0"; chunk_index := 2 |}).
  { repeat split. discriminate. }
  exact (proj2 (proj2 (proj2
           (generation_prompt_is_grounded None None "gemini"
              (fun _ => Raise "offline") (fun _ => Raise "offline")
              (ranked_collection five_chunks) "startup" 3 "semantic")))
           2 _ _ H).
Defined.

Lemma missing_key_blocks_generation_witness :
  response (query_podcasts None (Some "sk-test") "gemini"
              (fun _ => Ok "never used") (fun _ => Ok "an answer")
              (ranked_collection five_chunks) "startup" 3 "semantic"
              (Some "gemini"))
  = "Error: Gemini API key not configured. Please set your Gemini API key in config.json or environment variables.".
Proof.
  exact (proj1 (proj1 (proj2 (proj2
           (missing_key_blocks_generation None (Some "sk-test") "gemini"
              (fun _ => Ok "never used") (fun _ => Ok "an answer")
              (ranked_collection five_chunks) "startup" 3 "semantic")))
           eq_refl)).
Defined.

(** ** Recommendations *)

Lemma keyword_hits_pos (words : list string) (query_lower : string) :
  0 < keyword_hits words query_lower →
  ∃ word, word ∈ words ∧ PyStr.contains query_lower word = true.
Proof.
  unfold keyword_hits. induction words as [| w words IH]; cbn [List.filter].
  - cbn. lia.
  - destruct (PyStr.contains query_lower w) eqn:Hw.
    + intros _. exists w. split; [left | done].
    + intros H. destruct (IH H) as (word & Hin & Hc). exists word.
      split; [by right | done].
Qed.

Lemma keyword_hits_none (words : list string) (query_lower : string) :
  (∀ word, word ∈ words → PyStr.contains query_lower word = false) →
  keyword_hits words query_lower = 0.
Proof.
  intros H. unfold keyword_hits. by rewrite SearchFacts.filter_none.
Qed.

(** The recommendation is semantic, keyword or hybrid.  It is semantic
    only when the lower-cased query contains one of the seven question
    words, keyword only when it contains one of the five precision
    words, and hybrid when it contains none of the twelve. *)
Theorem search_recommendation_follows_keywords (query : string) :
  let advice := primary_recommendation (get_search_recommendations query) in
  (advice = "semantic" ∨ advice = "keyword" ∨ advice = "hybrid")
  ∧ (advice = "semantic" →
     ∃ word, word ∈ semantic_keywords
             ∧ PyStr.contains (PyStr.lower query) word = true)
  ∧ (advice = "keyword" →
     ∃ word, word ∈ keyword_keywords
             ∧ PyStr.contains (PyStr.lower query) word = true)
  ∧ ((∀ word, word ∈ semantic_keywords ++ keyword_keywords →
              PyStr.contains (PyStr.lower query) word = false) →
     advice = "hybrid").
Proof.
  cbv zeta. unfold get_search_recommendations.
  cbn [try_except primary_recommendation].
  split; [| split; [| split]].
  - destruct (_ <? _); [by left |]. destruct (_ <? _); [right; by left | by do 2 right].
  - destruct (Nat.ltb_spec (keyword_hits keyword_keywords (PyStr.lower query))
                (keyword_hits semantic_keywords (PyStr.lower query))) as [Hlt | Hge].
    + intros _. apply keyword_hits_pos. lia.
    + destruct (_ <? _); discriminate.
  - destruct (Nat.ltb_spec (keyword_hits keyword_keywords (PyStr.lower query))
                (keyword_hits semantic_keywords (PyStr.lower query))) as [Hlt | Hge];
      [discriminate |].
    destruct (Nat.ltb_spec (keyword_hits semantic_keywords (PyStr.lower query))
                (keyword_hits keyword_keywords (PyStr.lower query))) as [Hlt | Hge'];
      [| discriminate].
    intros _. apply keyword_hits_pos. lia.
  - intros Hnone.
    rewrite !keyword_hits_none; [done | |];
      intros word Hw; apply Hnone, elem_of_app; first [by right | by left].
Qed.

Lemma search_recommendation_follows_keywords_witness :
  primary_recommendation (get_search_recommendations "Startup funding")
  = "hybrid".
Proof.
  apply (proj2 (proj2 (proj2
           (search_recommendation_follows_keywords "Startup funding")))).
  intros word Hw.
  repeat (apply elem_of_cons in Hw as [-> | Hw]; [reflexivity |]).
  by apply elem_of_nil in Hw.
Defined.

End RAGFacts.

(** * Properties of the utilities *)

Module UtilsFacts.
Import Utils StringFacts.

(** ** Upload validation *)

Lemma split_on_go_free (sep : Ascii.ascii) (ext : string) : ∀ cur,
  free_of sep ext = true →
  split_on_go sep ext cur = [PyStr.rev (PyStr.rev_onto ext cur)].
Proof.
  induction ext as [| c ext IH]; intros cur Hfree; [done |].
  cbn [free_of] in Hfree. apply andb_prop in Hfree as [Hc Hfree].
  cbn [split_on_go PyStr.rev_onto].
  destruct (Ascii.eqb c sep); [done |]. by apply IH.
Qed.

Lemma split_on_go_nonempty (sep : Ascii.ascii) (s : string) : ∀ cur,
  split_on_go sep s cur ≠ [].
Proof.
  induction s as [| c s IH]; intros cur; [done |]. cbn [split_on_go].
  destruct (Ascii.eqb c sep); [done | apply IH].
Qed.

Lemma last_split_on_go (sep : Ascii.ascii) (stem ext : string) : ∀ cur,
  free_of sep ext = true →
  last (split_on_go sep (stem +:+ String sep ext) cur) = Some ext.
Proof.
  induction stem as [| c stem IH]; intros cur Hfree.
  - rewrite append_nil_l. cbn [split_on_go]. rewrite Ascii.eqb_refl.
    rewrite split_on_go_free by done.
    change (PyStr.rev_onto ext "") with (PyStr.rev ext).
    by rewrite SearchFacts.rev_rev.
  - rewrite append_cons. cbn [split_on_go].
    destruct (Ascii.eqb c sep); [| by apply IH].
    rewrite last_cons, IH; done.
Qed.

(** A missing upload is rejected.  A name is accepted exactly when the
    text after its last dot, lower-cased, is one of mp3, wav, m4a, flac,
    ogg; a name without a dot is its own extension, so a file named
    "mp3" is accepted. *)
Theorem validate_audio_file_extension :
  validate_audio_file None = false
  ∧ (∀ stem ext, free_of dot ext = true →
       validate_audio_file (Some (stem +:+ "." +:+ ext))
       = bool_decide (PyStr.lower ext ∈ supported_formats))
  ∧ (∀ name, free_of dot name = true →
       validate_audio_file (Some name)
       = bool_decide (PyStr.lower name ∈ supported_formats)).
Proof.
  split; [done |]. split.
  - intros stem ext Hfree. unfold validate_audio_file, split_on.
    change ("." +:+ ext) with (String dot ext).
    by rewrite last_split_on_go.
  - intros name Hfree. unfold validate_audio_file, split_on.
    rewrite split_on_go_free by done.
    change (PyStr.rev_onto name "") with (PyStr.rev name).
    by rewrite SearchFacts.rev_rev.
Qed.

Lemma validate_audio_file_extension_witness :
  validate_audio_file (Some "talk.v2.MP3") = true.
Proof.
  exact (proj1 (proj2 validate_audio_file_extension) "talk.v2" "MP3" eq_refl).
Defined.

(** ** Dictionaries as item lists *)

Lemma dict_get_set_eq k v d : dict_get k (dict_set k v d) = Some v.
Proof.
  induction d as [| [k' v'] d IH]; cbn [dict_set dict_get].
  - by rewrite String.eqb_refl.
  - destruct (String.eqb k' k) eqn:E; cbn [dict_get].
    + by rewrite String.eqb_refl.
    + by rewrite E.
Qed.

Lemma dict_get_set_ne k k0 v d :
  k0 ≠ k → dict_get k0 (dict_set k v d) = dict_get k0 d.
Proof.
  intros Hne. induction d as [| [k' v'] d IH]; cbn [dict_set dict_get].
  - apply String.eqb_neq in Hne. rewrite String.eqb_sym in Hne. by rewrite Hne.
  - destruct (String.eqb k' k) eqn:E; cbn [dict_get].
    + apply String.eqb_eq in E as ->.
      assert (String.eqb k k0 = false) as ->; [| done].
      apply String.eqb_neq. congruence.
    + by rewrite IH.
Qed.

Lemma dict_get_None k d : dict_get k d = None ↔ k ∉ d.*1.
Proof.
  induction d as [| [k' v'] d IH]; cbn [dict_get fmap list_fmap fst].
  - split; [intros _ H; by apply elem_of_nil in H | done].
  - rewrite not_elem_of_cons. destruct (String.eqb k' k) eqn:E.
    + apply String.eqb_eq in E as ->. split; [done | by intros [? _]].
    + apply String.eqb_neq in E. rewrite IH. split; [by split | by intros [_ ?]].
Qed.

Lemma dict_set_fresh k v d : dict_get k d = None → dict_set k v d = d ++ [(k, v)].
Proof.
  induction d as [| [k' v'] d IH]; cbn [dict_set dict_get app]; [done |].
  destruct (String.eqb k' k); [done |]. intros H. by rewrite IH.
Qed.

Lemma dict_set_keys k v d :
  (dict_set k v d).*1 = if decide (k ∈ d.*1) then d.*1 else d.*1 ++ [k].
Proof.
  induction d as [| [k' v'] d IH]; cbn [dict_set fmap list_fmap fst].
  - case_decide as H; [by apply elem_of_nil in H | done].
  - destruct (String.eqb k' k) eqn:E.
    + apply String.eqb_eq in E as ->. cbn [fmap list_fmap fst].
      rewrite decide_True; [done | left].
    + apply String.eqb_neq in E. cbn [fmap list_fmap fst]. rewrite IH.
      destruct (decide (k ∈ d.*1)) as [Hin | Hnin].
      * rewrite decide_True; [done | by right].
      * rewrite decide_False; [done |].
        intros [-> | H]%elem_of_cons; done.
Qed.

(** ** Saving and loading episodes *)

Section StoreFacts.
Context {T : Type}.
Implicit Types (st : Storage T) (e : Episode).

(** After a successful save of an episode whose id is a non-empty
    string, loading returns that episode under its id, stamped with the
    time of the save; every other id is as it was, no id is listed
    twice if none was, and the transcripts are untouched. *)
Theorem saved_episode_is_loaded (now : string) (episode_data : Episode)
    (st : Storage T) (episode_id : string) :
  writable st = true → ep_id episode_data = Some episode_id →
  episode_id ≠ "" →
  let out := save_episode_data now episode_data st in
  out.1 = true
  ∧ dict_get episode_id (load_episode_data out.2)
    = Some (set_processed_at now episode_data)
  ∧ (∀ k, k ≠ episode_id →
          dict_get k (load_episode_data out.2) = dict_get k (load_episode_data st))
  ∧ (NoDup (load_episode_data st).*1 → NoDup (load_episode_data out.2).*1)
  ∧ (∀ k, load_transcript k out.2 = load_transcript k st).
Proof.
  intros Hw Hid Hne. cbv zeta. unfold save_episode_data.
  rewrite Hw, Hid. cbn [negb]. destruct episode_id as [| c rest]; [done |].
  cbn [PyStr.truthy fst snd].
  set (loaded := load_episode_data st).
  assert (Hload : ∀ d w, load_episode_data
            {| episodes_file := Stored d; transcripts_dir := transcripts_dir st;
               writable := w |} = d) by done.
  rewrite Hload. split; [done |]. split; [apply dict_get_set_eq |].
  split; [intros k Hk; by apply dict_get_set_ne |]. split; [| done].
  intros Hnd. rewrite dict_set_keys. case_decide as Hin; [done |].
  apply NoDup_app. split; [done |]. split; [| apply NoDup_singleton].
  intros x Hx ->%list_elem_of_singleton. done.
Qed.

(** A save reports failure and changes nothing when the store cannot be
    written.  When it can, a save of an episode without id, or with the
    empty id, reports success although no episode is added; and a save
    over an episodes file that cannot be parsed starts again from the
    empty dictionary, so that the saved episode is then the only one. *)
Theorem save_episode_edge_cases (now : string) (episode_data : Episode)
    (st : Storage T) :
  (writable st = false → save_episode_data now episode_data st = (false, st))
  ∧ (writable st = true →
     ep_id episode_data = None ∨ ep_id episode_data = Some "" →
     (save_episode_data now episode_data st).1 = true
     ∧ load_episode_data (save_episode_data now episode_data st).2
       = load_episode_data st)
  ∧ (writable st = true → episodes_file st = Unreadable →
     ∀ episode_id, ep_id episode_data = Some episode_id → episode_id ≠ "" →
     load_episode_data (save_episode_data now episode_data st).2
     = [(episode_id, set_processed_at now episode_data)]).
Proof.
  unfold save_episode_data. split; [by intros -> |]. split.
  - intros -> [-> | ->]; done.
  - intros -> Hfile episode_id -> Hne. destruct episode_id; [done |].
    unfold load_episode_data. cbn. by rewrite Hfile.
Qed.

Lemma string_length_app (a b : string) :
  String.length (a +:+ b) = String.length a + String.length b.
Proof.
  induction a as [| c a IH]; [done |]. rewrite append_cons. cbn. by rewrite IH.
Qed.

Lemma append_inj_l (a b suffix : string) :
  a +:+ suffix = b +:+ suffix → a = b.
Proof.
  revert b. induction a as [| c a IH]; intros [| c' b] H.
  - done.
  - apply (f_equal String.length) in H.
    rewrite append_nil_l, append_cons in H. cbn in H.
    rewrite string_length_app in H. lia.
  - apply (f_equal String.length) in H.
    rewrite append_nil_l, append_cons in H. cbn in H.
    rewrite string_length_app in H. lia.
  - rewrite !append_cons in H. injection H as -> H. f_equal. by apply IH.
Qed.

Lemma application_id_inj (m n : nat) :
  transcript_file (application_id m) = transcript_file (application_id n) →
  m = n.
Proof.
  unfold transcript_file, application_id. intros H%append_inj_l.
  apply (inj (String.app _)) in H. by apply (inj pretty) in H.
Qed.

(** With a store that can be written, the transcript saved for an
    episode id of the application is what loading that id returns; the
    transcripts of the other ids of the application, and the episodes,
    are as they were. *)
Theorem saved_transcript_is_loaded (n : nat) (transcript : T)
    (st : Storage T) :
  writable st = true →
  let out := save_transcript (application_id n) transcript st in
  out.1 = true
  ∧ load_transcript (application_id n) out.2 = Some transcript
  ∧ (∀ m, m ≠ n →
       load_transcript (application_id m) out.2
       = load_transcript (application_id m) st)
  ∧ load_episode_data out.2 = load_episode_data st.
Proof.
  intros Hw. cbv zeta. unfold save_transcript, load_transcript. rewrite Hw.
  cbn [negb fst snd transcripts_dir].
  split; [done |]. split; [apply lookup_insert_eq |]. split; [| done].
  intros m Hm. rewrite lookup_insert_ne.
  - destruct (transcripts_dir st); [done | apply lookup_empty].
  - intros H. by apply application_id_inj in H.
Qed.

Lemma fold_left_add_snoc (l : list nat) (x : nat) :
  fold_left Nat.add (l ++ [x]) 0 = fold_left Nat.add l 0 + x.
Proof. by rewrite fold_left_app. Qed.

Variable py_sum : list Q → Q.
Variable os_remove : bool.
Variable shutil_rmtree : gmap string T → option (gmap string T).

(** The statistics count the stored episodes, add up their chunks and
    hand their durations to [sum], all in stored order; an empty,
    missing or unparsable store gives zeros. *)
Lemma episode_stats_totals (st : Storage T) :
  total_episodes (get_episode_stats py_sum st) = length (load_episode_data st)
  ∧ total_chunks (get_episode_stats py_sum st)
    = fold_left Nat.add (ep_chunks <$> (load_episode_data st).*2) 0
  ∧ (load_episode_data st ≠ [] →
     total_duration (get_episode_stats py_sum st)
     = py_sum (ep_duration <$> (load_episode_data st).*2)).
Proof.
  unfold get_episode_stats. by destruct (load_episode_data st).
Qed.

(** Saving an episode under an id that is not stored yet raises the
    episode count by one and the chunk total by the episode's chunks;
    the duration total is the [sum] of the stored durations followed by
    the episode's; the capacity message is the one of the new count.
    Saving under an id that is already stored leaves the episode count
    as it is. *)
Theorem episode_stats_after_save (now : string) (episode_data : Episode)
    (st : Storage T) (episode_id : string) :
  writable st = true → ep_id episode_data = Some episode_id →
  episode_id ≠ "" →
  let before := get_episode_stats py_sum st in
  let after :=
    get_episode_stats py_sum (save_episode_data now episode_data st).2 in
  (dict_get episode_id (load_episode_data st) = None →
     total_episodes after = S (total_episodes before)
     ∧ total_chunks after = total_chunks before + ep_chunks episode_data
     ∧ total_duration after
       = py_sum ((ep_duration <$> (load_episode_data st).*2)
                 ++ [ep_duration episode_data])
     ∧ storage_capacity after = storage_status (S (total_episodes before)))
  ∧ (dict_get episode_id (load_episode_data st) ≠ None →
     total_episodes after = total_episodes before).
Proof.
  intros Hw Hid Hne. cbv zeta.
  destruct (episode_stats_totals st) as (He & Hc & _).
  destruct (episode_stats_totals (save_episode_data now episode_data st).2)
    as (He' & Hc' & Hd').
  assert (Hloaded : load_episode_data (save_episode_data now episode_data st).2
                    = dict_set episode_id (set_processed_at now episode_data)
                        (load_episode_data st)).
  { unfold save_episode_data. rewrite Hw, Hid. by destruct episode_id. }
  rewrite Hloaded in He', Hc', Hd'. split.
  - intros Hfresh. rewrite dict_set_fresh in He', Hc', Hd' by done.
    do 2 (rewrite ?fmap_app in Hc'; cbn [fmap list_fmap snd] in Hc').
    do 2 (rewrite ?fmap_app in Hd'; cbn [fmap list_fmap snd] in Hd').
    rewrite fold_left_add_snoc in Hc'.
    rewrite length_app in He'. cbn [length] in He'.
    rewrite He', Hc', He, Hc.
    split; [lia |]. split; [done |]. split.
    { apply Hd'. intros E. by apply app_nil in E as [_ ?]. }
    unfold get_episode_stats. rewrite Hloaded, dict_set_fresh by done.
    destruct (load_episode_data st ++ _) eqn:E.
    + by apply app_nil in E as [_ ?].
    + cbn [try_except storage_capacity]. rewrite <- E, length_app.
      cbn [length]. f_equal. lia.
  - intros Hold. rewrite He', He, <- !(length_fmap fst), dict_set_keys.
    rewrite decide_True; [done |].
    destruct (decide (episode_id ∈ (load_episode_data st).*1)); [done |].
    exfalso. by apply Hold, dict_get_None.
Qed.

(** ** Clearing the store *)

Lemma remove_episodes_file_ok (st : Storage T) :
  episodes_file st = Missing ∨ os_remove = true →
  ∃ st1, remove_episodes_file os_remove st = Ok st1
         ∧ episodes_file st1 = Missing
         ∧ transcripts_dir st1 = transcripts_dir st.
Proof.
  unfold remove_episodes_file. intros [Hm | ->].
  - rewrite Hm. by exists st.
  - destruct (episodes_file st) eqn:E; eauto.
Qed.

(** The episodes file is removed first, then the transcripts directory.
    When every removal that is attempted succeeds, clearing reports
    success; afterwards no episode is stored, the transcripts directory
    is gone and the statistics are those of the empty store.  When the
    removal of the episodes file fails, clearing reports failure and
    nothing has changed.  When the removal of the directory fails,
    clearing reports failure although the episodes are already gone. *)
Theorem clear_storage_empties_the_store (st : Storage T) :
  let out := clear_storage os_remove shutil_rmtree st in
  (episodes_file st = Missing ∨ os_remove = true →
   transcripts_dir st = None
   ∨ (∃ files, transcripts_dir st = Some files ∧ shutil_rmtree files = None) →
   out.1 = true
   ∧ load_episode_data out.2 = []
   ∧ transcripts_dir out.2 = None
   ∧ get_episode_stats py_sum out.2 = no_episodes)
  ∧ (episodes_file st ≠ Missing → os_remove = false → out = (false, st))
  ∧ (episodes_file st = Missing ∨ os_remove = true →
     ∀ files remaining, transcripts_dir st = Some files →
       shutil_rmtree files = Some remaining →
       out.1 = false
       ∧ load_episode_data out.2 = []
       ∧ transcripts_dir out.2 = Some remaining).
Proof.
  cbv zeta. unfold clear_storage. split; [| split].
  - intros Hfile Hdir.
    destruct (remove_episodes_file_ok st Hfile) as (st1 & -> & Hm1 & Hd1).
    unfold remove_transcripts_dir. rewrite Hd1.
    destruct Hdir as [Hnone | (files & Hsome & Hrm)].
    + rewrite Hnone. cbn [fst snd].
      unfold get_episode_stats, load_episode_data.
      by rewrite Hm1, Hd1, Hnone.
    + rewrite Hsome, Hrm. cbn [fst snd].
      unfold get_episode_stats, load_episode_data.
      cbn [episodes_file transcripts_dir]. by rewrite Hm1.
  - intros Hfile Hrm. unfold remove_episodes_file. rewrite Hrm.
    by destruct (episodes_file st).
  - intros Hfile files remaining Hdir Hrm.
    destruct (remove_episodes_file_ok st Hfile) as (st1 & -> & Hm1 & Hd1).
    unfold remove_transcripts_dir. rewrite Hd1, Hdir, Hrm. cbn [fst snd].
    unfold load_episode_data. cbn [episodes_file transcripts_dir].
    by rewrite Hm1.
Qed.

End StoreFacts.

Lemma saved_episode_is_loaded_witness :
  dict_get "episode_0"
    (load_episode_data
       (save_episode_data "2024-01-01T00:00:00" sample_episode fresh_store).2)
  = Some (set_processed_at "2024-01-01T00:00:00" sample_episode).
Proof.
  assert (Hne : "episode_0" ≠ "") by discriminate.
  exact (proj1 (proj2 (saved_episode_is_loaded "2024-01-01T00:00:00"
                         sample_episode fresh_store "episode_0"
                         eq_refl eq_refl Hne))).
Defined.

Lemma save_episode_edge_cases_witness :
  save_episode_data "now" anonymous_episode locked_store = (false, locked_store).
Proof.
  exact (proj1 (save_episode_edge_cases "now" anonymous_episode locked_store)
           eq_refl).
Defined.

Lemma saved_transcript_is_loaded_witness :
  load_transcript "episode_0" (save_transcript "episode_0" tt fresh_store).2
  = Some tt.
Proof.
  exact (proj1 (proj2 (saved_transcript_is_loaded 0 tt fresh_store eq_refl))).
Defined.

Lemma episode_stats_after_save_witness :
  total_episodes
    (get_episode_stats exact_sum
       (save_episode_data "now" sample_episode fresh_store).2)
  = S (total_episodes (get_episode_stats exact_sum fresh_store)).
Proof.
  assert (Hne : "episode_0" ≠ "") by discriminate.
  exact (proj1 (proj1 (episode_stats_after_save exact_sum "now" sample_episode
                         fresh_store "episode_0" eq_refl eq_refl Hne)
                  eq_refl)).
Defined.

Lemma clear_storage_empties_the_store_witness :
  (clear_storage true rmtree_refused damaged_store).1 = false
  ∧ load_episode_data (clear_storage true rmtree_refused damaged_store).2 = [].
Proof.
  destruct (clear_storage_empties_the_store exact_sum true rmtree_refused
              damaged_store) as (_ & _ & Hpartial).
  destruct (Hpartial (or_intror eq_refl)
              {[ "episode_0_transcript.json" := tt ]}
              {[ "episode_0_transcript.json" := tt ]} eq_refl eq_refl)
    as (H1 & H2 & _).
  split; [exact H1 | exact H2].
Defined.

End UtilsFacts.

(** * Fractional seconds *)

Module TimestampFloatFacts.
Import Timestamp.

(** A float number of seconds from 0 up to [2^53] is formatted like
    its integer part: the fraction of a second never shows and never
    rounds the seconds up (59.9 s is shown as 00:59). *)
Theorem format_timestamp_drops_fraction (q : Q) :
  (0 <= q)%Q → (q < inject_Z (2 ^ 53))%Q →
  _format_timestamp (PyFloat q) = _format_timestamp (PyInt (Qfloor q))
  ∧ format_time (PyFloat q) = format_time (PyInt (Qfloor q)).
Proof.
  intros Hq0 Hq1.
  assert (H : _format_timestamp (PyFloat q)
              = _format_timestamp (PyInt (Qfloor q))).
  { rewrite TimestampFacts.format_float by done.
    by destruct (TimestampFacts.minutes_seconds q) as (-> & -> & _). }
  split; [exact H |]. exact H.
Qed.

Lemma format_timestamp_drops_fraction_witness :
  _format_timestamp (PyFloat (Float64.round64 (599 # 10))) = "00:59"
  ∧ format_time (PyFloat (Float64.round64 (599 # 10))) = "00:59".
Proof.
  assert (H0 : (0 <= Float64.round64 (599 # 10))%Q) by (by vm_compute).
  assert (H1 : (Float64.round64 (599 # 10) < inject_Z (2 ^ 53))%Q)
    by (by vm_compute).
  destruct (format_timestamp_drops_fraction
              (Float64.round64 (599 # 10)) H0 H1) as [H2 H3].
  rewrite H2, H3. split; by vm_compute.
Defined.

End TimestampFloatFacts.
